(** * ScriptEval: type resolution and data reshaping of the script plugin

    A shallow embedding of [examples/python/FullScriptSupport/ScriptEval_script.py]
    (class [ScriptEval]) and the properties of its argument classifier, row
    transposer and result encoder.

    Python values are dynamically typed, so the values that travel through the
    plugin are embedded in one inductive type [value]; exceptions are an
    explicit [Outcome]; the mutable gRPC context, the log and the generator's
    output are the fields of a [World] threaded by the monad [M]. *)

From Stdlib Require Import Floats Ascii.
From stdpp Require Import gmap strings list.

Open Scope Z_scope.

Set Warnings "-register-all".

(** ** Wire data (ServerSideExtension_pb2) *)

(** Modelled from the spec: the wire enums [DataType] and [FunctionType] are
    declared in ServerSideExtension_pb2, which is not among the sources. An
    enum field of the wire format is an integer that may hold a value outside
    the declared names, hence [Z]; the tags are numbered in declaration order
    and the development only uses that they are pairwise distinct. *)
Module SSE.
Definition STRING : Z := 0.
Definition NUMERIC : Z := 1.
Definition DUAL : Z := 2.

Definition SCALAR : Z := 0.
Definition AGGREGATION : Z := 1.
Definition TENSOR : Z := 2.

(** [Dual]: an unset field reads as its default, [0.0] or the empty string. *)
Record Dual := mkDual { numData : float; strData : string }.
Record Row := mkRow { duals : list Dual }.
Record BundledRows := mkBundledRows { rows : list Row }.

(** The message [Parameter] of a header. *)
Record Param := mkParam { dataType : Z; name : string }.
Record ScriptRequestHeader := mkHeader {
    script : string;
    functionType : Z;
    returnType : Z;
    params : list Param
  }.
End SSE.

(** ** Classifications (SSEData_script) *)

(** Modelled from the spec: the enums [ArgType], [ReturnType] and
    [FunctionType] of SSEData_script, which is not among the sources; the
    members are the ones the plugin names. *)
Module ArgType.
Inductive t := Undefined | Empty | String | Numeric | Mixed.

(** [str] of an enum member, as [format] renders it. *)
Definition str (a : t) : string :=
    match a with
    | Undefined => "ArgType.Undefined"
    | Empty => "ArgType.Empty"
    | String => "ArgType.String"
    | Numeric => "ArgType.Numeric"
    | Mixed => "ArgType.Mixed"
    end.
End ArgType.

Module ReturnType.
Inductive t := Undefined | String | Numeric | Dual.
End ReturnType.

Module FunctionType.
Inductive t := Scalar | Aggregation | Tensor.
End FunctionType.

#[global] Instance ArgType_eq_dec : EqDecision ArgType.t.
Proof. solve_decision. Defined.
#[global] Instance ReturnType_eq_dec : EqDecision ReturnType.t.
Proof. solve_decision. Defined.

(** ** Python values *)

(** The values that reach the script or come back from it. [VNum] is a Python
    number by its float64 value, [VNone] any other object without [__iter__];
    a list or a tuple is given by its elements in order. *)
Inductive value :=
| VStr (s : string)
| VNum (x : float)
| VNone
| VTuple (l : list value)
| VList (l : list value).

Module grpc.
Inductive StatusCode := OK | CANCELLED | UNKNOWN | INVALID_ARGUMENT.
End grpc.

(** Exceptions. [RpcError] carries the arguments it is raised with;
    [ScriptError] is any exception the evaluated script raises. *)
Inductive exn :=
| RpcError (code : grpc.StatusCode) (msg : string)
| TypeError
| IndexError
| UnboundLocalError
| ScriptError (msg : string).

Inductive Outcome (A : Type) :=
| Return (a : A)
| Raise (e : exn).
Arguments Return {A} a.
Arguments Raise {A} e.

#[global] Instance Outcome_ret : MRet Outcome := fun _ a => Return a.
#[global] Instance Outcome_bind : MBind Outcome := fun _ _ f m =>
  match m with
  | Return a => f a
  | Raise e => Raise e
  end.

(** ** The world of one invocation *)

(** The servicer context: what [set_code] and [set_details] leave for the
    caller. *)
Record Context := mkContext {
  code : option grpc.StatusCode;
  details : option string
}.

(** Log records keep the arguments of the logging call, not the formatted
    text. *)
Inductive LogRecord :=
| LogInfo (script : string) (arg_types : ArgType.t) (ret_type : ReturnType.t)
          (func_type : option FunctionType.t)
| LogDebugArgs (all_rows : list value)
| LogDebugResult (result : value).

(** [pulled] counts the row batches taken from the request iterator,
    [emitted] is what the generator has yielded so far, oldest first. *)
Record World := mkWorld {
  context : Context;
  log : list LogRecord;
  pulled : nat;
  emitted : list SSE.BundledRows
}.

Definition M (A : Type) : Type := World -> Outcome A * World.

#[global] Instance M_ret : MRet M := fun _ a w => (Return a, w).
#[global] Instance M_bind : MBind M := fun _ _ f m w =>
  match m w with
  | (Return a, w') => f a w'
  | (Raise e, w') => (Raise e, w')
  end.

Definition lift {A} (o : Outcome A) : M A := fun w => (o, w).
Definition raise {A} (e : exn) : M A := fun w => (Raise e, w).

Definition set_code (c : grpc.StatusCode) : M unit := fun w =>
  (Return tt, mkWorld (mkContext (Some c) (details (context w))) (log w) (pulled w) (emitted w)).
Definition set_details (d : string) : M unit := fun w =>
  (Return tt, mkWorld (mkContext (code (context w)) (Some d)) (log w) (pulled w) (emitted w)).
Definition logging (r : LogRecord) : M unit := fun w =>
  (Return tt, mkWorld (context w) (log w ++ [r]) (pulled w) (emitted w)).
Definition pull : M unit := fun w =>
  (Return tt, mkWorld (context w) (log w) (S (pulled w)) (emitted w)).
Definition yield (b : SSE.BundledRows) : M unit := fun w =>
  (Return tt, mkWorld (context w) (log w) (pulled w) (emitted w ++ [b])).

(** A [for] loop that threads the loop-carried variable [s]. *)
Fixpoint for_each `{MBind T, MRet T} {A S} (xs : list A) (body : A -> S -> T S) (s : S) : T S :=
  match xs with
  | [] => mret s
  | x :: xs' => s' ← body x s; for_each xs' body s'
  end.

(** ** Built-ins *)

(** [str.format] with automatically numbered [{}] fields: each [{}] takes
    the next argument, [IndexError] when none is left; arguments left over
    are dropped. Templates that use braces in another way are not modelled. *)
Fixpoint format (template : string) (args : list string) : Outcome string :=
  match template with
  | EmptyString => Return EmptyString
  | String c rest =>
      match c, rest with
      | "{"%char, String "}"%char rest' =>
          match args with
          | a :: args' => s ← format rest' args'; mret (a +:+ s)
          | [] => Raise IndexError
          end
      | _, _ => s ← format rest args; mret (String c s)
      end
  end.

Definition isinstance_str (v : value) : bool :=
  match v with VStr _ => true | _ => false end.

Definition hasattr_iter (v : value) : bool :=
  match v with
  | VStr _ | VTuple _ | VList _ => true
  | VNum _ | VNone => false
  end.

Fixpoint chars (s : string) : list value :=
  match s with
  | EmptyString => []
  | String c rest => VStr (String c EmptyString) :: chars rest
  end.

(** Iteration over a value: the elements of a list or tuple, the characters
    of a string, [TypeError] for an object that is not iterable. *)
Definition iter (v : value) : Outcome (list value) :=
  match v with
  | VStr s => Return (chars s)
  | VTuple l | VList l => Return l
  | VNum _ | VNone => Raise TypeError
  end.

(** [zip] applied to the unpacked list [xss]: the i-th tuple takes the i-th element of every
    list, and the result stops with the shortest list; [zip()] is empty. *)
Fixpoint zip_star {A} (xss : list (list A)) : list (list A) :=
  match xss with
  | [] => []
  | xs :: rest =>
      match rest with
      | [] => (fun x => [x]) <$> xs
      | _ :: _ => zip_with cons xs (zip_star rest)
      end
  end.

(** [SSE.Dual(strData=col)] and [SSE.Dual(numData=col)]: the message
    constructor checks the type of the field value. *)
Definition Dual_strData (col : value) : Outcome SSE.Dual :=
  match col with
  | VStr s => Return (SSE.mkDual 0%float s)
  | _ => Raise TypeError
  end.

Definition Dual_numData (col : value) : Outcome SSE.Dual :=
  match col with
  | VNum x => Return (SSE.mkDual x "")
  | _ => Raise TypeError
  end.

(** ** The plugin *)

Module ScriptEval.
Section Plugin.

(** The script evaluator, [eval(script, {'args': params, 'numpy': numpy})]:
    opaque to the plugin. It is taken as a function of the script text and of
    the argument columns that either returns a value or raises. *)
Variable eval : string -> list value -> Outcome value.

Definition get_func_type (header : SSE.ScriptRequestHeader) : option FunctionType.t :=
  let func_type := SSE.functionType header in
  if decide (func_type = SSE.SCALAR) then Some FunctionType.Scalar
  else if decide (func_type = SSE.AGGREGATION) then Some FunctionType.Aggregation
  else if decide (func_type = SSE.TENSOR) then Some FunctionType.Tensor
  else None.

(** The body of the loop over [zip(duals, header.params)] under [Mixed]. *)
Definition append_mixed (script_args : list value) (dp : SSE.Dual * SSE.Param) : list value :=
  let '(dual, param) := dp in
  if decide (SSE.dataType param = SSE.STRING) then
    script_args ++ [VStr (SSE.strData dual)]
  else if decide (SSE.dataType param = SSE.NUMERIC) then
    script_args ++ [VNum (SSE.numData dual)]
  else if decide (SSE.dataType param = SSE.DUAL) then
    script_args ++ [VTuple [VNum (SSE.numData dual); VStr (SSE.strData dual)]]
  else script_args.

(** The context argument of the source is the [context] of the world. *)
Definition get_arguments (arg_types : ArgType.t) (duals : list SSE.Dual)
    (header : SSE.ScriptRequestHeader) : M (list value) :=
  match arg_types with
  | ArgType.String => mret ((fun d => VStr (SSE.strData d)) <$> duals)
  | ArgType.Numeric => mret ((fun d => VNum (SSE.numData d)) <$> duals)
  | ArgType.Mixed => mret (foldl append_mixed [] (zip duals (SSE.params header)))
  | _ =>
      msg ← lift (format "Undefined argument type: " [ArgType.str arg_types]);
      set_code grpc.INVALID_ARGUMENT;;
      set_details msg;;
      raise (RpcError grpc.INVALID_ARGUMENT msg)
  end.

Definition get_arg_types (header : SSE.ScriptRequestHeader) : ArgType.t :=
  let data_types := SSE.dataType <$> SSE.params header in
  if bool_decide (data_types = []) then ArgType.Empty
  else if bool_decide (1 < size (list_to_set data_types : gset Z))%nat
          || forallb (fun data_type => bool_decide (data_type = SSE.DUAL)) data_types
    then ArgType.Mixed
  else if forallb (fun data_type => bool_decide (data_type = SSE.STRING)) data_types
    then ArgType.String
  else if forallb (fun data_type => bool_decide (data_type = SSE.NUMERIC)) data_types
    then ArgType.Numeric
  else ArgType.Undefined.

Definition get_return_type (header : SSE.ScriptRequestHeader) : ReturnType.t :=
  if decide (SSE.returnType header = SSE.STRING) then ReturnType.String
  else if decide (SSE.returnType header = SSE.NUMERIC) then ReturnType.Numeric
  else if decide (SSE.returnType header = SSE.DUAL) then ReturnType.Dual
  else ReturnType.Undefined.

(** When [ret_type] is neither [String] nor [Numeric] the name [duals] is
    never bound and the [return] raises. *)
Definition get_duals (result : value) (ret_type : ReturnType.t) : Outcome (list SSE.Dual) :=
  let result :=
    if isinstance_str result || negb (hasattr_iter result) then VList [result] else result in
  match ret_type with
  | ReturnType.String => cols ← iter result; mapM Dual_strData cols
  | ReturnType.Numeric => cols ← iter result; mapM Dual_numData cols
  | _ => Raise UnboundLocalError
  end.

(** The second half of [evaluate]: the result becomes a [BundledRows]. *)
Definition encode (result : value) (ret_type : ReturnType.t) : Outcome SSE.BundledRows :=
  if isinstance_str result || negb (hasattr_iter result) then
    duals ← get_duals result ret_type;
    mret (SSE.mkBundledRows [SSE.mkRow duals])
  else
    result_rows ← iter result;
    rows ← for_each result_rows (fun row rows =>
              duals ← get_duals row ret_type;
              mret (rows ++ [SSE.mkRow duals])) [];
    mret (SSE.mkBundledRows rows).

Definition evaluate (script : string) (ret_type : ReturnType.t) (params : list value)
    : M SSE.BundledRows :=
  result ← lift (eval script params);
  logging (LogDebugResult result);;
  lift (encode result ret_type).

(** The nested loops of [EvaluateScript] over the request: every row of every
    batch, in order, gives one list of extracted values. *)
Definition collect (arg_types : ArgType.t) (header : SSE.ScriptRequestHeader)
    (request : list SSE.BundledRows) : M (list (list value)) :=
  for_each request (fun request_rows all_rows =>
    pull;;
    for_each (SSE.rows request_rows) (fun row all_rows =>
      params ← get_arguments arg_types (SSE.duals row) header;
      mret (all_rows ++ [params])) all_rows) [].

(** [all_rows[i] = [list(datatype) for datatype in zip( *all_rows[i])]]. *)
Definition split_dual (all_rows : list value) (i : nat) : Outcome (list value) :=
  match all_rows !! i with
  | None => Raise IndexError
  | Some column =>
      pairs ← iter column;
      pairs ← mapM iter pairs;
      mret (<[i := VList (VList <$> zip_star pairs)]> all_rows)
  end.

(** The parameters of [EvaluateScript]: collection of the rows, the
    transposition to one column per parameter and, under [Mixed], the split
    of the columns of the parameters declared dual. *)
Definition transpose (arg_types : ArgType.t) (header : SSE.ScriptRequestHeader)
    (request : list SSE.BundledRows) : M (list value) :=
  all_rows ← collect arg_types header request;
  let all_rows := VList <$> zip_star all_rows in
  if decide (arg_types = ArgType.Mixed) then
    let param_datatypes := SSE.dataType <$> SSE.params header in
    lift (for_each (imap pair param_datatypes) (fun '(i, datatype) all_rows =>
            if decide (datatype = SSE.DUAL) then split_dual all_rows i
            else mret all_rows) all_rows)
  else mret all_rows.

(** The generator: its run leaves what it yields in [emitted]. *)
Definition EvaluateScript (header : SSE.ScriptRequestHeader)
    (request : list SSE.BundledRows) : M unit :=
  let func_type := get_func_type header in
  let arg_types := get_arg_types header in
  let ret_type := get_return_type header in
  logging (LogInfo (SSE.script header) arg_types ret_type func_type);;
  if bool_decide (SSE.params header ≠ []) then
    all_rows ← transpose arg_types header request;
    logging (LogDebugArgs all_rows);;
    bundledRows ← evaluate (SSE.script header) ret_type all_rows;
    yield bundledRows
  else
    bundledRows ← evaluate (SSE.script header) ret_type [];
    yield bundledRows.

End Plugin.
End ScriptEval.

Import ScriptEval.

(** * The vocabulary of the specification and of the proofs *)

(** ** Classification *)

(** The specification's algorithm for the argument classification, over the
    set of distinct declared kinds. *)
Definition classifyArguments (kinds : list Z) : ArgType.t :=
  if decide (kinds = []) then ArgType.Empty
  else
    let distinct : gset Z := list_to_set kinds in
    if decide ((1 < size distinct)%nat ∨ distinct = {[SSE.DUAL]}) then ArgType.Mixed
    else if decide (distinct = {[SSE.STRING]}) then ArgType.String
    else if decide (distinct = {[SSE.NUMERIC]}) then ArgType.Numeric
    else ArgType.Undefined.

(** The declared kinds of a header, in order. *)
Definition declared_kinds (header : SSE.ScriptRequestHeader) : list Z :=
  SSE.dataType <$> SSE.params header.

(** The kinds the wire enum names. *)
Definition in_enum (kind : Z) : Prop :=
  kind = SSE.STRING ∨ kind = SSE.NUMERIC ∨ kind = SSE.DUAL.

#[global] Instance in_enum_dec kind : Decision (in_enum kind).
Proof. unfold in_enum. apply _. Defined.

(** ** Encoding *)

(** The normalisation rule of the specification: a string, or a value
    without iteration, stands for the one-element sequence that holds it;
    any other value is the sequence of its elements. *)
Definition normalize (v : value) : list value :=
  if isinstance_str v || negb (hasattr_iter v) then [v]
  else match v with
       | VTuple l | VList l => l
       | _ => []
       end.

(** Wrapping a column scalar under a return classification. *)
Definition wrap (ret_type : ReturnType.t) (col : value) : Outcome SSE.Dual :=
  match ret_type with
  | ReturnType.String => Dual_strData col
  | ReturnType.Numeric => Dual_numData col
  | _ => Raise UnboundLocalError
  end.

(** The encoder as the specification words it: the result is normalised to a
    sequence of rows, every row to a sequence of column scalars, and every
    scalar is wrapped; [mapM] keeps the order at both levels. *)
Definition encode_spec (result : value) (ret_type : ReturnType.t) : Outcome SSE.BundledRows :=
  rows ← mapM (fun row => duals ← mapM (wrap ret_type) (normalize row); mret (SSE.mkRow duals))
              (normalize result);
  mret (SSE.mkBundledRows rows).

(** A dual with only the textual field, and one with only the numeric field. *)
Definition str_dual (s : string) : SSE.Dual := SSE.mkDual 0%float s.
Definition num_dual (x : float) : SSE.Dual := SSE.mkDual x "".

(** ** Extraction and transposition *)

(** What one (dual, parameter) pair adds to the row under [Mixed]. *)
Definition mixed_value (dual : SSE.Dual) (param : SSE.Param) : list value :=
  append_mixed [] (dual, param).

(** The values [get_arguments] returns under a classification it supports. *)
Definition extract (arg_types : ArgType.t) (header : SSE.ScriptRequestHeader)
    (duals : list SSE.Dual) : list value :=
  match arg_types with
  | ArgType.String => (fun d => VStr (SSE.strData d)) <$> duals
  | ArgType.Numeric => (fun d => VNum (SSE.numData d)) <$> duals
  | _ => foldl append_mixed [] (zip duals (SSE.params header))
  end.

(** The classifications [get_arguments] has a branch for. *)
Definition supported (arg_types : ArgType.t) : Prop :=
  arg_types = ArgType.String ∨ arg_types = ArgType.Numeric ∨ arg_types = ArgType.Mixed.

(** The message of the error branch of [get_arguments]. *)
Definition undefined_msg : string := "Undefined argument type: ".

(** The world after the error branch has set the status and the details. *)
Definition invalid_argument (w : World) : World :=
  mkWorld (mkContext (Some grpc.INVALID_ARGUMENT) (Some undefined_msg))
          (log w) (pulled w) (emitted w).

(** The world after [n] more batches have been pulled. *)
Definition advance (n : nat) (w : World) : World :=
  mkWorld (context w) (log w) (n + pulled w) (emitted w).

(** All rows of a request, batch after batch. *)
Definition request_rows (request : list SSE.BundledRows) : list SSE.Row :=
  concat (SSE.rows <$> request).

(** The inner loop of [collect]. *)
Definition collect_rows (arg_types : ArgType.t) (header : SSE.ScriptRequestHeader)
    (rows : list SSE.Row) (all_rows : list (list value)) : M (list (list value)) :=
  for_each rows (fun row all_rows =>
    params ← get_arguments arg_types (SSE.duals row) header;
    mret (all_rows ++ [params])) all_rows.

(** The outer loop of [collect], from any accumulator. *)
Definition collect_from (arg_types : ArgType.t) (header : SSE.ScriptRequestHeader)
    (request : list SSE.BundledRows) (all_rows : list (list value)) : M (list (list value)) :=
  for_each request (fun request_rows all_rows =>
    pull;; collect_rows arg_types header (SSE.rows request_rows) all_rows) all_rows.

(** The loop of [transpose] over the enumerated declared kinds. *)
Definition split_duals (param_datatypes : list (nat * Z)) (all_rows : list value)
    : Outcome (list value) :=
  for_each param_datatypes (fun '(i, datatype) all_rows =>
    if decide (datatype = SSE.DUAL) then split_dual all_rows i
    else mret all_rows) all_rows.

(** The columns after the first stage, from the collected rows. *)
Definition columns (all_rows : list (list value)) : list value :=
  VList <$> zip_star all_rows.

(** The second stage, applied under [Mixed] only. *)
Definition second_stage (arg_types : ArgType.t) (header : SSE.ScriptRequestHeader)
    (all_rows : list value) : Outcome (list value) :=
  if decide (arg_types = ArgType.Mixed) then
    split_duals (imap pair (SSE.dataType <$> SSE.params header)) all_rows
  else mret all_rows.

(** ** Runs *)

(** The world after a log record. *)
Definition logged (r : LogRecord) (w : World) : World :=
  mkWorld (context w) (log w ++ [r]) (pulled w) (emitted w).

(** The two final statements of either branch of [EvaluateScript]. *)
Definition evaluate_and_yield (eval : string → list value → Outcome value)
    (header : SSE.ScriptRequestHeader) (params : list value) : M unit :=
  bundledRows ← evaluate eval (SSE.script header) (get_return_type header) params;
  yield bundledRows.

(** ** Sample invocations *)

(** The script [args]: it returns its argument columns. *)
Definition args_script : string → list value → Outcome value :=
  fun _ params => Return (VList params).

(** The world at the start of an invocation. *)
Definition fresh : World := mkWorld (mkContext None None) [] 0 [].

(** A header that declares the given kinds. *)
Definition sample_header (kinds : list Z) : SSE.ScriptRequestHeader :=
  SSE.mkHeader "args" SSE.SCALAR SSE.STRING ((fun k => SSE.mkParam k "p") <$> kinds).

Definition sample_row : SSE.Row :=
  SSE.mkRow [SSE.mkDual 5 "x"; SSE.mkDual 7 "yz"].

Definition sample_batch : SSE.BundledRows :=
  SSE.mkBundledRows [sample_row; SSE.mkRow [SSE.mkDual 6 "u"; SSE.mkDual 8 "vw"]].

(** ** Independence of the log *)

(** Two worlds that agree on everything the caller can see: the context,
    the position in the request and the yielded batches. *)
Definition same_but_log (w1 w2 : World) : Prop :=
  context w1 = context w2 ∧ pulled w1 = pulled w2 ∧ emitted w1 = emitted w2.

(** A computation that never reads the log. *)
Definition log_blind {A} (m : M A) : Prop :=
  ∀ w1 w2, same_but_log w1 w2 →
    (m w1).1 = (m w2).1 ∧ same_but_log (m w1).2 (m w2).2.

(** [header] with another function type. *)
Definition with_functionType (func_type : Z) (header : SSE.ScriptRequestHeader)
    : SSE.ScriptRequestHeader :=
  SSE.mkHeader (SSE.script header) func_type (SSE.returnType header) (SSE.params header).

(** What follows the first log record in [EvaluateScript]. *)
Definition after_info (eval : string → list value → Outcome value)
    (header : SSE.ScriptRequestHeader)
    (request : list SSE.BundledRows) : M unit :=
  if bool_decide (SSE.params header ≠ []) then
    all_rows ← transpose (get_arg_types header) header request;
    logging (LogDebugArgs all_rows);;
    bundledRows ← evaluate eval (SSE.script header) (get_return_type header) all_rows;
    yield bundledRows
  else
    bundledRows ← evaluate eval (SSE.script header) (get_return_type header) [];
    yield bundledRows.

(** ** Columns *)

(** The textual values of a row, in order. *)
Definition texts (row : SSE.Row) : list string := SSE.strData <$> SSE.duals row.

(** The duals that the rows hold at position [j], when every row has one. *)
Definition duals_at (j : nat) (rows : list SSE.Row) : option (list SSE.Dual) :=
  mapM (fun row => SSE.duals row !! j) rows.

(** The value a dual gives for a parameter of a kind of the enum. *)
Definition cell (dual : SSE.Dual) (param : SSE.Param) : value :=
  if decide (SSE.dataType param = SSE.STRING) then VStr (SSE.strData dual)
  else if decide (SSE.dataType param = SSE.NUMERIC) then VNum (SSE.numData dual)
  else VTuple [VNum (SSE.numData dual); VStr (SSE.strData dual)].

(** What [split_dual] puts in place of a column. *)
Definition split_column (column : value) : Outcome value :=
  pairs ← iter column;
  pairs ← mapM iter pairs;
  mret (VList (VList <$> zip_star pairs)).

(** ** Further vocabulary *)

(** The world after a batch has been yielded. *)
Definition yielded (b : SSE.BundledRows) (w : World) : World :=
  mkWorld (context w) (log w) (pulled w) (emitted w ++ [b]).




(** What [evaluate] followed by [yield] leaves, from the answer of the
    script. *)
Definition evaluated (eval : string → list value → Outcome value)
    (header : SSE.ScriptRequestHeader) (params : list value) (w : World)
    : Outcome unit * World :=
  match eval (SSE.script header) params with
  | Raise e => (Raise e, w)
  | Return result =>
      match encode result (get_return_type header) with
      | Raise e => (Raise e, logged (LogDebugResult result) w)
      | Return b => (Return tt, yielded b (logged (LogDebugResult result) w))
      end
  end.

(** The first log record of an invocation. *)
Definition info_record (header : SSE.ScriptRequestHeader) : LogRecord :=
  LogInfo (SSE.script header) (get_arg_types header) (get_return_type header)
          (get_func_type header).

(** The argument columns [EvaluateScript] hands to [evaluate]: the
    transposed request when parameters are declared, nothing otherwise. *)
Definition passed_arguments (header : SSE.ScriptRequestHeader)
    (request : list SSE.BundledRows) (w : World) : Outcome (list value) :=
  if bool_decide (SSE.params header ≠ []) then
    (transpose (get_arg_types header) header request (logged (info_record header) w)).1
  else Return [].

(** The three stages of an invocation in the exception monad. *)
Definition stages (eval : string → list value → Outcome value)
    (header : SSE.ScriptRequestHeader) (request : list SSE.BundledRows) (w : World)
    : Outcome SSE.BundledRows :=
  all_rows ← passed_arguments header request w;
  result ← eval (SSE.script header) all_rows;
  encode result (get_return_type header).




(** * Properties *)

(** ** Sets of declared kinds *)

Section Kinds.
Implicit Types (kinds : list Z) (k : Z).

Lemma all_kind_spec kinds k :
  forallb (fun data_type => bool_decide (data_type = k)) kinds = true ↔ Forall (eq k) kinds.
Proof.
  induction kinds as [|x kinds IH]; simpl.
  - split; [constructor | done].
  - rewrite andb_true_iff, bool_decide_eq_true, IH, Forall_cons. intuition congruence.
Qed.

Lemma uniform_distinct kinds k :
  kinds ≠ [] → Forall (eq k) kinds → (list_to_set kinds : gset Z) = {[k]}.
Proof.
  intros Hne Hall. apply set_eq. intros x.
  rewrite elem_of_list_to_set, elem_of_singleton. split.
  - intros Hx. rewrite Forall_forall in Hall. symmetry. by apply Hall.
  - intros ->. destruct kinds as [|y kinds]; [done|].
    apply Forall_cons in Hall as [-> _]. left.
Qed.

Lemma distinct_uniform kinds k :
  (list_to_set kinds : gset Z) = {[k]} → kinds ≠ [] ∧ Forall (eq k) kinds.
Proof.
  intros Hset. split.
  - intros ->. simpl in Hset.
    assert (k ∈ (∅ : gset Z)) as Hk by (rewrite Hset; set_solver).
    set_solver.
  - apply Forall_forall. intros x Hx.
    assert (x ∈ ({[k]} : gset Z)) as Hk by (rewrite <- Hset; by apply elem_of_list_to_set).
    set_solver.
Qed.

Lemma all_kind_distinct kinds k :
  kinds ≠ [] →
  forallb (fun data_type => bool_decide (data_type = k)) kinds = true
  ↔ (list_to_set kinds : gset Z) = {[k]}.
Proof.
  intros Hne. rewrite all_kind_spec. split.
  - by apply uniform_distinct.
  - intros H. by apply distinct_uniform in H as [_ H].
Qed.

End Kinds.

(** ** Argument classification *)

Lemma get_arg_types_classify header :
  get_arg_types header = classifyArguments (declared_kinds header).
Proof.
  unfold get_arg_types, classifyArguments, declared_kinds.
  set (kinds := SSE.dataType <$> SSE.params header).
  case_bool_decide as Hempty.
  { by rewrite decide_True. }
  rewrite decide_False by done.
  pose proof (all_kind_distinct kinds SSE.DUAL Hempty) as Hdual.
  pose proof (all_kind_distinct kinds SSE.STRING Hempty) as Hstring.
  pose proof (all_kind_distinct kinds SSE.NUMERIC Hempty) as Hnumeric.
  cbv zeta.
  destruct (decide ((1 < size (list_to_set kinds : gset Z))%nat
                    ∨ (list_to_set kinds : gset Z) = {[SSE.DUAL]})) as [Hmixed|Hmixed].
  - replace (bool_decide (1 < size (list_to_set kinds : gset Z))%nat
             || forallb (λ data_type, bool_decide (data_type = SSE.DUAL)) kinds) with true; [done|].
    symmetry. apply orb_true_iff. rewrite bool_decide_eq_true, Hdual. done.
  - replace (bool_decide (1 < size (list_to_set kinds : gset Z))%nat
             || forallb (λ data_type, bool_decide (data_type = SSE.DUAL)) kinds) with false.
    2:{ symmetry. apply not_true_is_false. rewrite orb_true_iff, bool_decide_eq_true, Hdual. done. }
    destruct (decide ((list_to_set kinds : gset Z) = {[SSE.STRING]})) as [Hs|Hs].
    { apply Hstring in Hs. by rewrite Hs. }
    replace (forallb (λ data_type, bool_decide (data_type = SSE.STRING)) kinds) with false.
    2:{ symmetry. apply not_true_is_false. by rewrite Hstring. }
    destruct (decide ((list_to_set kinds : gset Z) = {[SSE.NUMERIC]})) as [Hn|Hn].
    { apply Hnumeric in Hn. by rewrite Hn. }
    replace (forallb (λ data_type, bool_decide (data_type = SSE.NUMERIC)) kinds) with false; [done|].
    symmetry. apply not_true_is_false. by rewrite Hnumeric.
Qed.

Lemma singleton_kind_inj (k1 k2 : Z) : ({[k1]} : gset Z) = {[k2]} → k1 = k2.
Proof. intros H. assert (k1 ∈ ({[k2]} : gset Z)) by (rewrite <- H; set_solver). set_solver. Qed.

(** C2. The argument classification is a function of the sequence of declared
    kinds alone and follows the specification's algorithm: [Empty] exactly
    for the empty sequence; otherwise [Mixed] exactly when the set of
    distinct kinds has more than one element or is {Dual}; otherwise
    [String] for {String}, [Numeric] for {Numeric}, and [Undefined] in every
    remaining case. *)
Theorem get_arg_types_classification (header : SSE.ScriptRequestHeader) :
  let kinds := declared_kinds header in
  let distinct : gset Z := list_to_set kinds in
  get_arg_types header = classifyArguments kinds
  ∧ (get_arg_types header = ArgType.Empty ↔ kinds = [])
  ∧ (get_arg_types header = ArgType.Mixed
     ↔ kinds ≠ [] ∧ ((1 < size distinct)%nat ∨ distinct = {[SSE.DUAL]}))
  ∧ (get_arg_types header = ArgType.String
     ↔ kinds ≠ [] ∧ ¬ ((1 < size distinct)%nat ∨ distinct = {[SSE.DUAL]})
       ∧ distinct = {[SSE.STRING]})
  ∧ (get_arg_types header = ArgType.Numeric
     ↔ kinds ≠ [] ∧ ¬ ((1 < size distinct)%nat ∨ distinct = {[SSE.DUAL]})
       ∧ distinct = {[SSE.NUMERIC]})
  ∧ (get_arg_types header = ArgType.Undefined
     ↔ kinds ≠ [] ∧ ¬ ((1 < size distinct)%nat ∨ distinct = {[SSE.DUAL]})
       ∧ distinct ≠ {[SSE.STRING]} ∧ distinct ≠ {[SSE.NUMERIC]}).
Proof.
  intros kinds distinct. rewrite get_arg_types_classify. fold kinds.
  split; [done|]. unfold classifyArguments. fold distinct.
  assert (distinct = {[SSE.STRING]} → distinct ≠ {[SSE.NUMERIC]}) as Hsn.
  { intros -> H%singleton_kind_inj. done. }
  repeat case_decide; repeat split; try done; try tauto; try (intros (? & ? & ?); tauto);
    try (intros (? & ? & ? & ?); tauto).
Qed.

(** ** Loops and exceptions *)

Section OutcomeLemmas.
Context {A B C : Type}.

Lemma Outcome_bind_Return (f : A → Outcome B) (a : A) : (Return a ≫= f) = f a.
Proof. done. Qed.

Lemma Outcome_bind_Raise (f : A → Outcome B) (e : exn) : (Raise e ≫= f) = Raise e.
Proof. done. Qed.

(** A loop that appends one element per iteration is a [mapM]. *)
Lemma for_each_append (f : A → Outcome B) (g : B → C) (xs : list A) (acc : list C) :
  for_each xs (fun x acc => y ← f x; mret (acc ++ [g y])) acc
  = (ys ← mapM f xs; mret (acc ++ (g <$> ys))).
Proof.
  revert acc. induction xs as [|x xs IH]; intros acc; simpl.
  - by rewrite app_nil_r.
  - destruct (f x) as [y|e]; simpl; [|done].
    rewrite IH. destruct (mapM f xs) as [ys|e]; simpl; [|done].
    by rewrite <- app_assoc.
Qed.

Lemma mapM_Return (f : A → Outcome B) (g : A → B) (xs : list A) :
  (∀ x, x ∈ xs → f x = Return (g x)) → mapM f xs = Return (g <$> xs).
Proof.
  induction xs as [|x xs IH]; intros Hf; simpl; [done|].
  rewrite Hf by left. simpl. rewrite IH; [done|].
  intros y Hy. apply Hf. by right.
Qed.

Lemma mapM_bind_ret (f : A → Outcome B) (g : B → C) (xs : list A) :
  mapM (fun x => y ← f x; mret (g y)) xs = (ys ← mapM f xs; mret (g <$> ys)).
Proof.
  induction xs as [|x xs IH]; simpl; [done|].
  destruct (f x) as [y|e]; simpl; [|done].
  rewrite IH. by destruct (mapM f xs).
Qed.

Lemma mapM_ext (f g : A → Outcome B) (xs : list A) :
  (∀ x, f x = g x) → mapM f xs = mapM g xs.
Proof. intros Hfg. induction xs as [|x xs IH]; simpl; [done|]. by rewrite Hfg, IH. Qed.

End OutcomeLemmas.

(** ** The result encoder *)

Lemma get_duals_normalize result ret_type :
  ret_type = ReturnType.String ∨ ret_type = ReturnType.Numeric →
  get_duals result ret_type = mapM (wrap ret_type) (normalize result).
Proof. intros [-> | ->]; by destruct result. Qed.

(** [encode] with its loop read as a [mapM]. *)
Lemma encode_mapM result ret_type :
  encode result ret_type =
    if isinstance_str result || negb (hasattr_iter result) then
      duals ← get_duals result ret_type;
      mret (SSE.mkBundledRows [SSE.mkRow duals])
    else
      result_rows ← iter result;
      rows ← mapM (fun row => get_duals row ret_type) result_rows;
      mret (SSE.mkBundledRows (SSE.mkRow <$> rows)).
Proof.
  unfold encode. destruct (isinstance_str result || negb (hasattr_iter result)); [done|].
  destruct (iter result) as [rs|e]; [|done].
  rewrite !Outcome_bind_Return, for_each_append.
  by destruct (mapM _ rs).
Qed.

(** C9. Under the return classifications [Dual] and [Undefined] the
    dual-wrapping step raises for every result (no [duals] is ever bound);
    a row of duals comes out of it, and a row enters an encoded batch, only
    under [String] or [Numeric]. *)
Theorem get_duals_only_string_numeric (result : value) (ret_type : ReturnType.t) :
  get_duals result ReturnType.Dual = Raise UnboundLocalError
  ∧ get_duals result ReturnType.Undefined = Raise UnboundLocalError
  ∧ (∀ duals, get_duals result ret_type = Return duals →
       ret_type = ReturnType.String ∨ ret_type = ReturnType.Numeric)
  ∧ (∀ batch, encode result ret_type = Return batch → SSE.rows batch ≠ [] →
       ret_type = ReturnType.String ∨ ret_type = ReturnType.Numeric).
Proof.
  split; [done|]. split; [done|]. split.
  - intros duals. destruct ret_type; try done; auto.
  - intros batch. rewrite encode_mapM.
    assert (∀ row, ret_type ≠ ReturnType.String → ret_type ≠ ReturnType.Numeric →
              get_duals row ret_type = Raise UnboundLocalError) as Hraise.
    { intros row. by destruct ret_type. }
    destruct (decide (ret_type = ReturnType.String)) as [|Hs]; [auto|].
    destruct (decide (ret_type = ReturnType.Numeric)) as [|Hn]; [auto|].
    destruct (isinstance_str result || negb (hasattr_iter result)).
    + by rewrite Hraise.
    + destruct (iter result) as [[|r rs]|e]; [| |done].
      * intros [= <-]. done.
      * rewrite Outcome_bind_Return. simpl. by rewrite Hraise.
Qed.

Lemma encode_refines result ret_type :
  ret_type = ReturnType.String ∨ ret_type = ReturnType.Numeric →
  encode result ret_type = encode_spec result ret_type.
Proof.
  intros Hrt. rewrite encode_mapM. unfold encode_spec.
  rewrite mapM_bind_ret.
  assert (∀ l, mapM (fun row => get_duals row ret_type) l
               = mapM (fun row => mapM (wrap ret_type) (normalize row)) l) as Hrows.
  { intros l. apply mapM_ext. intros row. by apply get_duals_normalize. }
  rewrite get_duals_normalize by done.
  destruct result as [s|x| |l|l]; simpl; rewrite ?Hrows.
  - by destruct (wrap ret_type (VStr s)).
  - by destruct (wrap ret_type (VNum x)).
  - by destruct (wrap ret_type VNone).
  - by destruct (mapM _ l).
  - by destruct (mapM _ l).
Qed.

Lemma encode_string_table (table : list (list string)) :
  encode (VList ((fun row => VList (VStr <$> row)) <$> table)) ReturnType.String
  = Return (SSE.mkBundledRows ((fun row => SSE.mkRow (str_dual <$> row)) <$> table)).
Proof.
  rewrite encode_mapM. simpl.
  rewrite (mapM_Return _ (fun row => str_dual <$> match row with
                                                  | VList l => (fun c => match c with VStr s => s | _ => "" end) <$> l
                                                  | _ => []
                                                  end)).
  - simpl. f_equal. f_equal. rewrite <- !list_fmap_compose.
    apply list_fmap_ext. intros _ row _. simpl. f_equal. f_equal.
    rewrite <- list_fmap_compose. by rewrite list_fmap_id.
  - intros row (r & -> & _)%list_elem_of_fmap. simpl.
    rewrite <- list_fmap_compose.
    apply mapM_Return. by intros c (s & -> & _)%list_elem_of_fmap.
Qed.

Lemma encode_numeric_table (table : list (list float)) :
  encode (VList ((fun row => VList (VNum <$> row)) <$> table)) ReturnType.Numeric
  = Return (SSE.mkBundledRows ((fun row => SSE.mkRow (num_dual <$> row)) <$> table)).
Proof.
  rewrite encode_mapM. simpl.
  rewrite (mapM_Return _ (fun row => num_dual <$> match row with
                                                  | VList l => (fun c => match c with VNum x => x | _ => 0%float end) <$> l
                                                  | _ => []
                                                  end)).
  - simpl. f_equal. f_equal. rewrite <- !list_fmap_compose.
    apply list_fmap_ext. intros _ row _. simpl. f_equal. f_equal.
    rewrite <- list_fmap_compose. by rewrite list_fmap_id.
  - intros row (r & -> & _)%list_elem_of_fmap. simpl.
    rewrite <- list_fmap_compose.
    apply mapM_Return. by intros c (x & -> & _)%list_elem_of_fmap.
Qed.

(** C6. The encoder normalises the result to a sequence of rows (a string
    or a value without iteration is one row), every row to a sequence of
    column scalars by the same rule, and wraps every scalar as a dual that
    carries only the numeric field under [Numeric] and only the textual
    field under [String]; rows and columns keep the order of the result. *)
Theorem encode_normalizes_and_wraps :
  (∀ result, encode result ReturnType.String = encode_spec result ReturnType.String)
  ∧ (∀ result, encode result ReturnType.Numeric = encode_spec result ReturnType.Numeric)
  ∧ (∀ s, normalize (VStr s) = [VStr s])
  ∧ (∀ v, hasattr_iter v = false → normalize v = [v])
  ∧ (∀ s, wrap ReturnType.String (VStr s) = Return (SSE.mkDual 0%float s))
  ∧ (∀ x, wrap ReturnType.Numeric (VNum x) = Return (SSE.mkDual x ""))
  ∧ (∀ table : list (list string),
       encode (VList ((fun row => VList (VStr <$> row)) <$> table)) ReturnType.String
       = Return (SSE.mkBundledRows ((fun row => SSE.mkRow (str_dual <$> row)) <$> table)))
  ∧ (∀ table : list (list float),
       encode (VList ((fun row => VList (VNum <$> row)) <$> table)) ReturnType.Numeric
       = Return (SSE.mkBundledRows ((fun row => SSE.mkRow (num_dual <$> row)) <$> table))).
Proof.
  split; [intros; apply encode_refines; auto|].
  split; [intros; apply encode_refines; auto|].
  split; [done|].
  split; [intros v Hv; unfold normalize; by rewrite Hv, orb_true_r|].
  split; [done|]. split; [done|].
  split; [apply encode_string_table | apply encode_numeric_table].
Qed.

(** ** Per-row extraction *)

Lemma append_mixed_acc acc dp : append_mixed acc dp = acc ++ append_mixed [] dp.
Proof.
  destruct dp as [dual param]. unfold append_mixed.
  repeat case_decide; simpl; by rewrite ?app_nil_r.
Qed.

Lemma foldl_append_mixed acc l :
  foldl append_mixed acc l = acc ++ foldl append_mixed [] l.
Proof.
  revert acc. induction l as [|dp l IH]; intros acc; simpl.
  - by rewrite app_nil_r.
  - rewrite IH, (IH (append_mixed [] dp)), (append_mixed_acc acc), app_assoc. done.
Qed.

Lemma foldl_append_mixed_cons dual param l :
  foldl append_mixed [] ((dual, param) :: l) = mixed_value dual param ++ foldl append_mixed [] l.
Proof. simpl. by rewrite foldl_append_mixed. Qed.

Lemma foldl_append_mixed_app l1 l2 :
  foldl append_mixed [] (l1 ++ l2) = foldl append_mixed [] l1 ++ foldl append_mixed [] l2.
Proof. by rewrite foldl_app, foldl_append_mixed. Qed.

Lemma mixed_value_in_enum dual param :
  in_enum (SSE.dataType param) → length (mixed_value dual param) = 1%nat.
Proof.
  unfold in_enum, mixed_value, append_mixed. intros H.
  repeat case_decide; simpl; try done. tauto.
Qed.

Lemma mixed_value_out_of_enum dual param :
  ¬ in_enum (SSE.dataType param) → mixed_value dual param = [].
Proof.
  unfold in_enum, mixed_value, append_mixed. intros H.
  repeat case_decide; simpl; try done; tauto.
Qed.

(** A row under [Mixed] is never longer than the parameters in the enum. *)
Lemma mixed_length_filter duals params :
  (length (foldl append_mixed [] (zip duals params))
   ≤ length (filter (fun p => in_enum (SSE.dataType p)) params))%nat.
Proof.
  revert duals. induction params as [|p params IH]; intros [|d duals]; try (simpl; lia).
  change (zip (d :: duals) (p :: params)) with ((d, p) :: zip duals params).
  rewrite foldl_append_mixed_cons, length_app. specialize (IH duals).
  rewrite filter_cons. case_decide as Hp; simpl.
  - rewrite mixed_value_in_enum by done. lia.
  - rewrite mixed_value_out_of_enum by done. simpl. lia.
Qed.

Lemma get_arguments_extract arg_types duals header :
  supported arg_types →
  get_arguments arg_types duals header = mret (extract arg_types header duals).
Proof. by intros [-> | [-> | ->]]. Qed.

Lemma get_arguments_raises arg_types duals header w :
  ¬ supported arg_types →
  get_arguments arg_types duals header w
  = (Raise (RpcError grpc.INVALID_ARGUMENT undefined_msg), invalid_argument w).
Proof. unfold supported. destruct arg_types; try done; intros H; exfalso; tauto. Qed.

(** C10. Under [Mixed] a parameter whose declared kind is outside the enum
    adds nothing to the extracted row: the extraction returns without error
    and without touching the context, the row has fewer elements than there
    are declared parameters, and the values of the parameters after it move
    one place to the left. *)
Theorem get_arguments_mixed_skips (header : SSE.ScriptRequestHeader)
    (pre post : list SSE.Param) (bad : SSE.Param) (duals : list SSE.Dual) (w : World) :
  SSE.params header = pre ++ bad :: post →
  ¬ in_enum (SSE.dataType bad) →
  ∃ script_args,
    get_arguments ArgType.Mixed duals header w = (Return script_args, w)
    ∧ (length script_args < length (SSE.params header))%nat
    ∧ (∀ dpre d dpost, duals = dpre ++ d :: dpost → length dpre = length pre →
         script_args = foldl append_mixed [] (zip dpre pre)
                       ++ foldl append_mixed [] (zip dpost post)).
Proof.
  intros Hparams Hbad.
  exists (foldl append_mixed [] (zip duals (SSE.params header))).
  split; [reflexivity|]. split.
  - eapply Nat.le_lt_trans; [apply mixed_length_filter|].
    rewrite Hparams, filter_app, filter_cons, decide_False, !length_app by done.
    simpl. pose proof (length_filter (fun p => in_enum (SSE.dataType p)) pre).
    pose proof (length_filter (fun p => in_enum (SSE.dataType p)) post). lia.
  - intros dpre d dpost -> Hlen. rewrite Hparams.
    rewrite zip_with_app by done.
    change (zip (d :: dpost) (bad :: post)) with ((d, bad) :: zip dpost post).
    rewrite foldl_append_mixed_app, foldl_append_mixed_cons.
    by rewrite mixed_value_out_of_enum.
Qed.

(** An instance: the kinds [String, 7, Numeric] and a row of three duals. *)
Lemma get_arguments_mixed_skips_witness :
  ∃ script_args,
    get_arguments ArgType.Mixed
      [SSE.mkDual 1 "a"; SSE.mkDual 2 "b"; SSE.mkDual 3 "c"]
      (sample_header [SSE.STRING; 7; SSE.NUMERIC]) fresh = (Return script_args, fresh)
    ∧ (length script_args < 3)%nat
    ∧ script_args = foldl append_mixed [] (zip [SSE.mkDual 1 "a"] [SSE.mkParam SSE.STRING "p"])
                    ++ foldl append_mixed [] (zip [SSE.mkDual 3 "c"] [SSE.mkParam SSE.NUMERIC "p"]).
Proof.
  destruct (get_arguments_mixed_skips (sample_header [SSE.STRING; 7; SSE.NUMERIC])
              [SSE.mkParam SSE.STRING "p"] [SSE.mkParam SSE.NUMERIC "p"] (SSE.mkParam 7 "p")
              [SSE.mkDual 1 "a"; SSE.mkDual 2 "b"; SSE.mkDual 3 "c"] fresh)
    as (script_args & Hrun & Hlen & Hshift).
  - reflexivity.
  - unfold in_enum. vm_compute. intros [H|[H|H]]; discriminate H.
  - exists script_args. split; [exact Hrun|]. split; [exact Hlen|].
    apply (Hshift [SSE.mkDual 1 "a"] (SSE.mkDual 2 "b") [SSE.mkDual 3 "c"]); reflexivity.
Defined.

(** Scenario: the kinds [String, 7, Numeric] and a row of three duals give
    the two values of the first and the third parameter. *)
Example mixed_row_misaligned :
  get_arguments ArgType.Mixed [SSE.mkDual 1 "a"; SSE.mkDual 2 "b"; SSE.mkDual 3 "c"]
    (sample_header [SSE.STRING; 7; SSE.NUMERIC]) fresh
  = (Return [VStr "a"; VNum 3], fresh).
Proof. reflexivity. Qed.

(** C4. With the classification [Undefined] the per-row extraction sets the
    status INVALID_ARGUMENT and the details on the context and raises an
    [RpcError] with that status. The message is the text before the colon
    and nothing else: the template has no field for the classification that
    [format] is given, and the classification [Empty] gets the same text. *)
Theorem get_arguments_undefined_message (duals : list SSE.Dual)
    (header : SSE.ScriptRequestHeader) (w : World) :
  get_arguments ArgType.Undefined duals header w
    = (Raise (RpcError grpc.INVALID_ARGUMENT "Undefined argument type: "), invalid_argument w)
  ∧ code (context (invalid_argument w)) = Some grpc.INVALID_ARGUMENT
  ∧ details (context (invalid_argument w)) = Some "Undefined argument type: "
  ∧ format "Undefined argument type: " [ArgType.str ArgType.Undefined]
    = Return "Undefined argument type: "
  ∧ get_arguments ArgType.Empty duals header w
    = get_arguments ArgType.Undefined duals header w.
Proof. repeat split. Qed.

(** What a template with a field gives: the name of the classification. *)
Example format_with_field :
  format "Undefined argument type: {}" [ArgType.str ArgType.Undefined]
  = Return "Undefined argument type: ArgType.Undefined".
Proof. reflexivity. Qed.

(** ** Collecting the rows of a request *)

Lemma M_bind_run {A B} (m : M A) (f : A → M B) (w : World) :
  (m ≫= f) w = match m w with
               | (Return a, w') => f a w'
               | (Raise e, w') => (Raise e, w')
               end.
Proof. done. Qed.

Lemma advance_0 w : advance 0 w = w.
Proof. by destruct w. Qed.

Lemma advance_S n w : advance n (advance 1 w) = advance (S n) w.
Proof. unfold advance. simpl. f_equal. lia. Qed.

Lemma collect_collect_from arg_types header request :
  collect arg_types header request = collect_from arg_types header request [].
Proof. done. Qed.

Section Collect.
Variables (arg_types : ArgType.t) (header : SSE.ScriptRequestHeader).

Lemma collect_rows_supported rows all_rows w :
  supported arg_types →
  collect_rows arg_types header rows all_rows w
  = (Return (all_rows ++ ((fun row => extract arg_types header (SSE.duals row)) <$> rows)), w).
Proof.
  intros Hs. revert all_rows. induction rows as [|row rows IH]; intros all_rows.
  - simpl. by rewrite app_nil_r.
  - unfold collect_rows in *. simpl. rewrite M_bind_run, get_arguments_extract by done.
    rewrite M_bind_run. simpl. rewrite IH, <- app_assoc. done.
Qed.

Lemma collect_rows_nil all_rows w :
  collect_rows arg_types header [] all_rows w = (Return all_rows, w).
Proof. done. Qed.

Lemma collect_from_cons b request all_rows w :
  collect_from arg_types header (b :: request) all_rows w
  = match collect_rows arg_types header (SSE.rows b) all_rows (advance 1 w) with
    | (Return all_rows', w') => collect_from arg_types header request all_rows' w'
    | (Raise e, w') => (Raise e, w')
    end.
Proof. done. Qed.

Lemma collect_from_supported request all_rows w :
  supported arg_types →
  collect_from arg_types header request all_rows w
  = (Return (all_rows ++ ((fun row => extract arg_types header (SSE.duals row))
                          <$> request_rows request)),
     advance (length request) w).
Proof.
  intros Hs. revert all_rows w. induction request as [|b request IH]; intros all_rows w.
  - simpl. by rewrite app_nil_r, advance_0.
  - rewrite collect_from_cons, collect_rows_supported, IH by done.
    unfold request_rows. simpl. rewrite fmap_app, app_assoc, advance_S. done.
Qed.

Lemma collect_rows_raises row rows all_rows w :
  ¬ supported arg_types →
  collect_rows arg_types header (row :: rows) all_rows w
  = (Raise (RpcError grpc.INVALID_ARGUMENT undefined_msg), invalid_argument w).
Proof.
  intros Hs. unfold collect_rows. simpl.
  by rewrite !M_bind_run, get_arguments_raises.
Qed.

(** Without a supported classification the first row of the request raises;
    the batches up to the one that holds it have been pulled. *)
Lemma collect_from_raises request all_rows w :
  ¬ supported arg_types → request_rows request ≠ [] →
  ∃ n, (0 < n ≤ length request)%nat
    ∧ collect_from arg_types header request all_rows w
      = (Raise (RpcError grpc.INVALID_ARGUMENT undefined_msg), invalid_argument (advance n w)).
Proof.
  intros Hs. revert w. induction request as [|b request IH]; intros w Hrows; [done|].
  rewrite collect_from_cons.
  destruct (SSE.rows b) as [|row rows] eqn:Hb.
  - destruct (IH (advance 1 w)) as (n & Hn & Heq).
    { unfold request_rows in *. simpl in Hrows. by rewrite Hb in Hrows. }
    exists (S n). split; [simpl; lia|].
    by rewrite collect_rows_nil, Heq, advance_S.
  - exists 1%nat. split; [simpl; lia|]. by rewrite collect_rows_raises.
Qed.

(** A request without rows collects nothing, whatever the classification. *)
Lemma collect_from_no_rows request all_rows w :
  request_rows request = [] →
  collect_from arg_types header request all_rows w
  = (Return all_rows, advance (length request) w).
Proof.
  revert w. induction request as [|b request IH]; intros w Hrows.
  - simpl. by rewrite advance_0.
  - unfold request_rows in Hrows. simpl in Hrows.
    apply app_eq_nil in Hrows as [Hb Hrows].
    by rewrite collect_from_cons, Hb, collect_rows_nil, IH, advance_S.
Qed.

End Collect.

(** ** Transposition *)

Lemma transpose_stages arg_types header request w :
  transpose arg_types header request w
  = match collect_from arg_types header request [] w with
    | (Return all_rows, w') => (second_stage arg_types header (columns all_rows), w')
    | (Raise e, w') => (Raise e, w')
    end.
Proof.
  unfold transpose. rewrite M_bind_run, collect_collect_from.
  destruct (collect_from arg_types header request [] w) as [[all_rows|e] w']; [|done].
  unfold second_stage. by case_decide.
Qed.

(** The world a transposition leaves: every batch pulled when it returns,
    at most every batch pulled and the error status set when extraction
    raises; a failure of the second stage leaves the world of a return. *)
Lemma transpose_world arg_types header request w :
  (∃ o, transpose arg_types header request w = (o, advance (length request) w))
  ∨ (∃ n, (0 < n ≤ length request)%nat
       ∧ transpose arg_types header request w
         = (Raise (RpcError grpc.INVALID_ARGUMENT undefined_msg),
            invalid_argument (advance n w))).
Proof.
  rewrite transpose_stages.
  destruct (decide (supported arg_types)) as [Hs|Hs].
  { left. rewrite collect_from_supported by done. eauto. }
  destruct (decide (request_rows request = [])) as [Hrows|Hrows].
  { left. rewrite collect_from_no_rows by done. eauto. }
  right. destruct (collect_from_raises arg_types header request [] w Hs Hrows)
    as (n & Hn & ->). eauto.
Qed.

(** ** Evaluation and the generator *)

Section Run.
Variable eval : string → list value → Outcome value.

Lemma evaluate_run script ret_type params w :
  evaluate eval script ret_type params w
  = match eval script params with
    | Return result => (encode result ret_type, logged (LogDebugResult result) w)
    | Raise e => (Raise e, w)
    end.
Proof.
  unfold evaluate. rewrite M_bind_run. unfold lift at 1.
  by destruct (eval script params).
Qed.

Lemma EvaluateScript_run header request w :
  EvaluateScript eval header request w
  = let w1 := logged (LogInfo (SSE.script header) (get_arg_types header)
                        (get_return_type header) (get_func_type header)) w in
    if bool_decide (SSE.params header ≠ []) then
      match transpose (get_arg_types header) header request w1 with
      | (Return all_rows, w2) =>
          evaluate_and_yield eval header all_rows (logged (LogDebugArgs all_rows) w2)
      | (Raise e, w2) => (Raise e, w2)
      end
    else evaluate_and_yield eval header [] w1.
Proof.
  unfold EvaluateScript. cbv zeta. rewrite M_bind_run. unfold logging at 1.
  fold (logged (LogInfo (SSE.script header) (get_arg_types header)
                  (get_return_type header) (get_func_type header)) w).
  case_bool_decide; [|done].
  rewrite M_bind_run.
  destruct (transpose _ header request _) as [[all_rows|e] w2]; [|done].
  by rewrite M_bind_run.
Qed.

(** [evaluate_and_yield] either yields one batch or raises and yields
    none; it pulls nothing and leaves the context alone. *)
Lemma evaluate_and_yield_run header params w :
  (∃ b w', evaluate_and_yield eval header params w = (Return tt, w')
           ∧ emitted w' = emitted w ++ [b]
           ∧ pulled w' = pulled w ∧ context w' = context w)
  ∨ (∃ e w', evaluate_and_yield eval header params w = (Raise e, w')
             ∧ emitted w' = emitted w
             ∧ pulled w' = pulled w ∧ context w' = context w).
Proof.
  unfold evaluate_and_yield. rewrite M_bind_run, evaluate_run.
  destruct (eval _ params) as [result|e]; [|right; eauto 10].
  destruct (encode result _) as [b|e]; [left|right]; eauto 10.
Qed.

End Run.

(** ** One batch per invocation *)

(** C7, as amended. An invocation that returns has yielded exactly one
    batch, whatever the number of input batches, and one that raises has
    yielded none. The request is read in one pass, to its end when the
    invocation returns, and only when parameters are declared: with none it
    is not read at all. *)
Theorem EvaluateScript_emits (eval : string → list value → Outcome value)
    (header : SSE.ScriptRequestHeader) (request : list SSE.BundledRows) (w : World) :
  match EvaluateScript eval header request w with
  | (Return _, w') =>
      (∃ b, emitted w' = emitted w ++ [b])
      ∧ pulled w' = ((if bool_decide (SSE.params header ≠ []) then length request else 0)
                     + pulled w)%nat
  | (Raise _, w') =>
      emitted w' = emitted w
      ∧ (pulled w ≤ pulled w'
         ≤ (if bool_decide (SSE.params header ≠ []) then length request else 0) + pulled w)%nat
  end.
Proof.
  rewrite EvaluateScript_run. cbv zeta.
  case_bool_decide as Hparams.
  - destruct (transpose_world (get_arg_types header) header request
                (logged (LogInfo (SSE.script header) (get_arg_types header)
                           (get_return_type header) (get_func_type header)) w))
      as [[o Ht] | (n & Hn & Ht)]; rewrite Ht.
    + destruct o as [all_rows|e]; [|simpl; split; [done|lia]].
      match goal with |- context [evaluate_and_yield eval header all_rows ?w2] =>
        destruct (evaluate_and_yield_run eval header all_rows w2)
          as [(b & w' & -> & He & Hp & _) | (e & w' & -> & He & Hp & _)]
      end; simpl in He, Hp; rewrite He, Hp.
      * eauto.
      * split; [done|lia].
    + simpl. split; [done|lia].
  - match goal with |- context [evaluate_and_yield eval header [] ?w1] =>
      destruct (evaluate_and_yield_run eval header [] w1)
        as [(b & w' & -> & He & Hp & _) | (e & w' & -> & He & Hp & _)]
    end; simpl in He, Hp; rewrite He, Hp.
    + eauto.
    + split; [done|lia].
Qed.

(** Against C7 as stated: an invocation that aborts yields no batch at
    all, and one without declared parameters yields its batch without
    reading any of the two batches of its request. *)
Lemma invocation_without_its_batch :
  (EvaluateScript args_script (sample_header [7]) [sample_batch] fresh).1
    = Raise (RpcError grpc.INVALID_ARGUMENT "Undefined argument type: ")
  ∧ emitted (EvaluateScript args_script (sample_header [7]) [sample_batch] fresh).2 = []
  ∧ (EvaluateScript args_script (sample_header []) [sample_batch; sample_batch] fresh).1
    = Return tt
  ∧ pulled (EvaluateScript args_script (sample_header []) [sample_batch; sample_batch] fresh).2
    = 0%nat.
Proof. vm_compute. done. Qed.

(** ** Declared kinds outside the enum *)

Lemma uniform_out_of_enum_undefined header k :
  declared_kinds header ≠ [] → Forall (eq k) (declared_kinds header) → ¬ in_enum k →
  get_arg_types header = ArgType.Undefined.
Proof.
  intros Hne Hall Hk. unfold in_enum in Hk.
  rewrite get_arg_types_classify. unfold classifyArguments.
  rewrite decide_False by done. cbv zeta.
  rewrite (uniform_distinct _ k Hne Hall), size_singleton.
  rewrite decide_False.
  2:{ intros [?|H%singleton_kind_inj]; [lia|tauto]. }
  rewrite decide_False by (intros H%singleton_kind_inj; tauto).
  rewrite decide_False by (intros H%singleton_kind_inj; tauto).
  done.
Qed.

Lemma EvaluateScript_unsupported_raises eval header request w :
  SSE.params header ≠ [] → ¬ supported (get_arg_types header) →
  request_rows request ≠ [] →
  ∃ w', EvaluateScript eval header request w
        = (Raise (RpcError grpc.INVALID_ARGUMENT undefined_msg), w')
      ∧ context w' = mkContext (Some grpc.INVALID_ARGUMENT) (Some undefined_msg)
      ∧ emitted w' = emitted w.
Proof.
  intros Hparams Hs Hrows. rewrite EvaluateScript_run. cbv zeta.
  rewrite bool_decide_eq_true_2 by done. rewrite transpose_stages.
  set (w1 := logged _ w).
  destruct (collect_from_raises (get_arg_types header) header request [] w1 Hs Hrows)
    as (n & Hn & ->).
  eexists. split; [done|]. done.
Qed.

(** C5, as amended. A non-empty sequence of declared kinds that all are one
    and the same value outside the enum classifies as [Undefined]; when the
    request then carries at least one row, the invocation aborts with an
    [RpcError] of status INVALID_ARGUMENT, the status and the message are set
    on the context, and no batch is yielded. *)
Theorem uniform_out_of_enum_aborts (eval : string → list value → Outcome value)
    (header : SSE.ScriptRequestHeader) (request : list SSE.BundledRows) (w : World) (k : Z) :
  declared_kinds header ≠ [] → Forall (eq k) (declared_kinds header) → ¬ in_enum k →
  get_arg_types header = ArgType.Undefined
  ∧ (request_rows request ≠ [] →
     ∃ w', EvaluateScript eval header request w
           = (Raise (RpcError grpc.INVALID_ARGUMENT "Undefined argument type: "), w')
         ∧ code (context w') = Some grpc.INVALID_ARGUMENT
         ∧ details (context w') = Some "Undefined argument type: "
         ∧ emitted w' = emitted w).
Proof.
  intros Hne Hall Hk.
  pose proof (uniform_out_of_enum_undefined header k Hne Hall Hk) as Hu.
  split; [done|]. intros Hrows.
  destruct (EvaluateScript_unsupported_raises eval header request w) as (w' & Hrun & Hc & He).
  - intros Hp. apply Hne. unfold declared_kinds. by rewrite Hp.
  - rewrite Hu. unfold supported. intros [?|[?|?]]; discriminate.
  - done.
  - exists w'. by rewrite Hc.
Qed.

(** An instance: two parameters of kind 7 and a request of two rows. *)
Lemma uniform_out_of_enum_aborts_witness :
  get_arg_types (sample_header [7; 7]) = ArgType.Undefined
  ∧ ∃ w', EvaluateScript args_script (sample_header [7; 7]) [sample_batch] fresh
          = (Raise (RpcError grpc.INVALID_ARGUMENT "Undefined argument type: "), w')
        ∧ code (context w') = Some grpc.INVALID_ARGUMENT
        ∧ details (context w') = Some "Undefined argument type: "
        ∧ emitted w' = emitted fresh.
Proof.
  destruct (uniform_out_of_enum_aborts args_script (sample_header [7; 7])
              [sample_batch] fresh 7) as [Hclass Hrun].
  - discriminate.
  - repeat constructor.
  - unfold in_enum. vm_compute. intros [H|[H|H]]; discriminate H.
  - split; [exact Hclass|]. apply Hrun. discriminate.
Defined.

(** Against C5 as stated: a sequence that holds a value outside the enum
    next to another kind classifies as [Mixed], and its invocation runs to
    the end; a uniform one aborts nothing when the request has no row. *)
Lemma out_of_enum_kind_without_abort :
  get_arg_types (sample_header [7; SSE.STRING]) = ArgType.Mixed
  ∧ (EvaluateScript args_script (sample_header [7; SSE.STRING]) [sample_batch] fresh).1
    = Return tt
  ∧ get_arg_types (sample_header [7]) = ArgType.Undefined
  ∧ (EvaluateScript args_script (sample_header [7]) [] fresh).1 = Return tt.
Proof. vm_compute. done. Qed.

(** ** The function type only reaches the log *)

Create HintDb blind discriminated.

Lemma log_blind_mret {A} (a : A) : log_blind (mret a).
Proof. by intros w1 w2 H. Qed.

Lemma log_blind_lift {A} (o : Outcome A) : log_blind (lift o).
Proof. by intros w1 w2 H. Qed.

Lemma log_blind_raise {A} (e : exn) : log_blind (raise (A:=A) e).
Proof. by intros w1 w2 H. Qed.

Lemma log_blind_bind {A B} (m : M A) (f : A → M B) :
  log_blind m → (∀ a, log_blind (f a)) → log_blind (m ≫= f).
Proof.
  intros Hm Hf w1 w2 Hw. rewrite !M_bind_run.
  destruct (Hm w1 w2 Hw) as [Ho Hw'].
  destruct (m w1) as [[a1|e1] w1'], (m w2) as [[a2|e2] w2']; simpl in *; try done.
  - injection Ho as ->. by apply Hf.
  - by injection Ho as ->.
Qed.

Lemma log_blind_for_each {A B} (xs : list A) (body : A → B → M B) (s : B) :
  (∀ x s, log_blind (body x s)) → log_blind (for_each xs body s).
Proof.
  intros Hbody. revert s. induction xs as [|x xs IH]; intros s; simpl.
  - apply log_blind_mret.
  - apply log_blind_bind; [apply Hbody | apply IH].
Qed.

Lemma log_blind_set_code c : log_blind (set_code c).
Proof. intros w1 w2 (Hc & Hp & He). repeat split; simpl; congruence. Qed.

Lemma log_blind_set_details d : log_blind (set_details d).
Proof. intros w1 w2 (Hc & Hp & He). repeat split; simpl; congruence. Qed.

Lemma log_blind_logging r : log_blind (logging r).
Proof. intros w1 w2 (Hc & Hp & He). repeat split; simpl; congruence. Qed.

Lemma log_blind_pull : log_blind pull.
Proof. intros w1 w2 (Hc & Hp & He). repeat split; simpl; congruence. Qed.

Lemma log_blind_yield b : log_blind (yield b).
Proof. intros w1 w2 (Hc & Hp & He). repeat split; simpl; congruence. Qed.

#[global] Hint Resolve log_blind_mret log_blind_lift log_blind_raise log_blind_set_code
  log_blind_set_details log_blind_logging log_blind_pull log_blind_yield : blind.

Ltac blind :=
  repeat first
    [ progress auto with blind
    | apply log_blind_bind; [|intros ?]
    | apply log_blind_for_each; intros ? ? ].

Lemma log_blind_get_arguments arg_types duals header :
  log_blind (get_arguments arg_types duals header).
Proof. destruct arg_types; unfold get_arguments; blind. Qed.

Lemma log_blind_transpose arg_types header request :
  log_blind (transpose arg_types header request).
Proof.
  unfold transpose, collect. blind; [apply log_blind_get_arguments|].
  cbv zeta. case_decide; blind.
Qed.

Lemma log_blind_evaluate eval script ret_type params :
  log_blind (evaluate eval script ret_type params).
Proof. unfold evaluate. blind. Qed.

#[global] Hint Resolve log_blind_get_arguments log_blind_transpose log_blind_evaluate : blind.

Lemma log_blind_after_info eval header request : log_blind (after_info eval header request).
Proof.
  unfold after_info. case_bool_decide; blind.
Qed.

Lemma EvaluateScript_after_info eval header request :
  EvaluateScript eval header request
  = (logging (LogInfo (SSE.script header) (get_arg_types header)
                (get_return_type header) (get_func_type header));;
     after_info eval header request).
Proof. done. Qed.

Lemma after_info_with_functionType eval func_type header request :
  after_info eval (with_functionType func_type header) request
  = after_info eval header request.
Proof. done. Qed.

(** C8. Two invocations that differ in the function type of the header and
    in nothing else have the same transposed argument columns, and they end
    alike: the same return or exception, the same yielded batches, the same
    context and the same position in the request. The function type reaches
    the log and nothing else. *)
Theorem function_type_only_logged (eval : string → list value → Outcome value)
    (header : SSE.ScriptRequestHeader) (func_type : Z)
    (request : list SSE.BundledRows) (w : World) :
  let header' := with_functionType func_type header in
  (∀ w', same_but_log w w' →
     (transpose (get_arg_types header') header' request w).1
     = (transpose (get_arg_types header) header request w').1)
  ∧ (EvaluateScript eval header' request w).1 = (EvaluateScript eval header request w).1
  ∧ emitted (EvaluateScript eval header' request w).2
    = emitted (EvaluateScript eval header request w).2
  ∧ context (EvaluateScript eval header' request w).2
    = context (EvaluateScript eval header request w).2
  ∧ pulled (EvaluateScript eval header' request w).2
    = pulled (EvaluateScript eval header request w).2.
Proof.
  intros header'. split.
  { intros w' Hw.
    by destruct (log_blind_transpose (get_arg_types header) header request w w' Hw). }
  rewrite !EvaluateScript_after_info. unfold header'.
  rewrite after_info_with_functionType, !M_bind_run.
  unfold logging.
  match goal with |- context [after_info eval header request ?w1] =>
    match goal with |- context [(after_info eval header request ?w2).1 = (after_info eval header request w1).1] =>
      destruct (log_blind_after_info eval header request w2 w1) as (Ho & Hc & Hp & He)
    end
  end; [done|].
  by rewrite Ho, Hc, Hp, He.
Qed.

(** ** [zip_star] *)

Section ZipStar.
Context {A B : Type}.
Implicit Types (xs : list A) (xss : list (list A)).

Lemma zip_star_cons_cons xs ys xss :
  zip_star (xs :: ys :: xss) = zip_with cons xs (zip_star (ys :: xss)).
Proof. done. Qed.

Lemma zip_star_singleton xs : zip_star [xs] = (fun x => [x]) <$> xs.
Proof. done. Qed.

(** The columns of a non-empty list of rows: column [j] exists exactly when
    every row has an element at [j], and it holds these elements in the
    order of the rows. *)
Lemma zip_star_lookup xss j :
  xss ≠ [] → zip_star xss !! j = mapM (fun xs => xs !! j) xss.
Proof.
  induction xss as [|xs [|ys xss] IH]; intros Hne; [done| |].
  - rewrite zip_star_singleton, list_lookup_fmap. simpl. destruct (xs !! j); reflexivity.
  - rewrite zip_star_cons_cons, lookup_zip_with, IH by done.
    change (mapM (λ xs0, xs0 !! j) (xs :: ys :: xss))
      with (x ← xs !! j; k ← mapM (λ xs0, xs0 !! j) (ys :: xss); mret (x :: k)).
    done.
Qed.

Lemma zip_star_length xss n :
  xss ≠ [] → Forall (fun xs => length xs = n) xss → length (zip_star xss) = n.
Proof.
  induction xss as [|xs [|ys xss] IH]; intros Hne Hall; [done| |].
  - rewrite zip_star_singleton, length_fmap. by inversion Hall.
  - apply Forall_cons in Hall as [Hxs Hall].
    rewrite zip_star_cons_cons, length_zip_with, IH by done. lia.
Qed.

Lemma zip_with_cons_fmap (f : A → B) xs xss :
  zip_with cons (f <$> xs) (fmap (M:=list) f <$> xss) = fmap (M:=list) f <$> zip_with cons xs xss.
Proof.
  revert xss. induction xs as [|x xs IH]; intros [|ys xss]; simpl; try done.
  by rewrite IH.
Qed.

(** Transposition commutes with a map over the elements. *)
Lemma zip_star_fmap (f : A → B) xss :
  zip_star (fmap (M:=list) f <$> xss) = fmap (M:=list) f <$> zip_star xss.
Proof.
  induction xss as [|xs [|ys xss] IH]; [done| |].
  - simpl. rewrite <- !list_fmap_compose. done.
  - rewrite (zip_star_cons_cons xs ys xss), <- zip_with_cons_fmap, <- IH. done.
Qed.

End ZipStar.

(** ** Round trip of textual columns *)

Lemma transpose_string header request w :
  transpose ArgType.String header request w
  = (Return ((fun column => VList (VStr <$> column))
             <$> zip_star (texts <$> request_rows request)),
     advance (length request) w).
Proof.
  rewrite transpose_stages, collect_from_supported by (unfold supported; auto).
  unfold second_stage. rewrite decide_False by done.
  unfold columns. simpl. f_equal. f_equal.
  rewrite (list_fmap_ext _ (fmap (M:=list) VStr ∘ texts) (request_rows request))
    by (intros; unfold texts; simpl; by rewrite <- list_fmap_compose).
  rewrite (list_fmap_compose texts (fmap (M:=list) VStr)), zip_star_fmap.
  by rewrite <- list_fmap_compose.
Qed.

(** C3. The textual columns that transposition makes of a batch classified
    [String] survive the round trip: encoded under the return
    classification [String] they give a batch whose rows hold, in order,
    the textual values of the columns, and extracting that batch again
    under [String] gives back the values of every column, in the same
    order. This holds for any number of rows, none included. *)
Theorem string_columns_round_trip (header : SSE.ScriptRequestHeader)
    (request : list SSE.BundledRows) (w : World) :
  let table : list (list string) := zip_star (texts <$> request_rows request) in
  let columns := (fun column => VList (VStr <$> column)) <$> table in
  transpose ArgType.String header request w = (Return columns, advance (length request) w)
  ∧ ∃ batch,
      encode (VList columns) ReturnType.String = Return batch
      ∧ texts <$> SSE.rows batch = table
      ∧ ∀ w', collect ArgType.String header [batch] w'
              = (Return (fmap (M:=list) VStr <$> table), advance 1 w').
Proof.
  intros table columns. split; [apply transpose_string|].
  eexists. split; [apply encode_string_table|]. split.
  - simpl. rewrite <- list_fmap_compose.
    rewrite <- (list_fmap_id table) at 2. apply list_fmap_ext.
    intros _ column _. unfold texts. simpl.
    rewrite <- list_fmap_compose. by rewrite list_fmap_id.
  - intros w'. rewrite collect_collect_from, collect_from_supported
      by (unfold supported; auto).
    unfold request_rows. simpl. rewrite app_nil_r. f_equal. f_equal.
    rewrite <- list_fmap_compose. apply list_fmap_ext.
    intros _ column _. simpl. rewrite <- !list_fmap_compose.
    by apply list_fmap_ext.
Qed.

(** ** Transposition of a request without rows *)

Lemma split_duals_cons i datatype param_datatypes all_rows :
  split_duals ((i, datatype) :: param_datatypes) all_rows
  = (all_rows' ← (if decide (datatype = SSE.DUAL) then split_dual all_rows i
                  else mret all_rows);
     split_duals param_datatypes all_rows').
Proof. done. Qed.

(** With no column at all, the first parameter declared dual is looked up
    out of range. *)
Lemma split_duals_no_columns param_datatypes :
  (∃ i, (i, SSE.DUAL) ∈ param_datatypes) → split_duals param_datatypes [] = Raise IndexError.
Proof.
  induction param_datatypes as [|[i datatype] l IH]; intros [j Hj].
  - by apply elem_of_nil in Hj.
  - rewrite split_duals_cons. case_decide as Hd; [done|].
    rewrite Outcome_bind_Return. apply IH. exists j.
    apply elem_of_cons in Hj as [Hj|Hj]; [|done].
    injection Hj as _ Hdual. by destruct Hd.
Qed.

Lemma split_duals_no_dual param_datatypes all_rows :
  (∀ i, (i, SSE.DUAL) ∉ param_datatypes) → split_duals param_datatypes all_rows = Return all_rows.
Proof.
  induction param_datatypes as [|[i datatype] l IH]; intros Hno; [done|].
  rewrite split_duals_cons. rewrite decide_False.
  - rewrite Outcome_bind_Return. apply IH. intros j Hj. apply (Hno j). by right.
  - intros ->. apply (Hno i). left.
Qed.

(** C1 at a request without rows. Whatever the declared parameters, the
    transposition of a request that carries no row yields no column at all
    under [String] and [Numeric], instead of one empty column per parameter;
    under [Mixed] it raises [IndexError] as soon as one parameter is declared
    dual, and yields no column otherwise. *)
Theorem transpose_without_rows (header : SSE.ScriptRequestHeader)
    (request : list SSE.BundledRows) (w : World) :
  request_rows request = [] →
  transpose ArgType.String header request w = (Return [], advance (length request) w)
  ∧ transpose ArgType.Numeric header request w = (Return [], advance (length request) w)
  ∧ (SSE.DUAL ∈ declared_kinds header →
     transpose ArgType.Mixed header request w = (Raise IndexError, advance (length request) w))
  ∧ (SSE.DUAL ∉ declared_kinds header →
     transpose ArgType.Mixed header request w = (Return [], advance (length request) w)).
Proof.
  intros Hrows. rewrite !transpose_stages, !collect_from_no_rows by done.
  split; [done|]. split; [done|].
  unfold second_stage. rewrite decide_True by done.
  split; intros Hdual.
  - rewrite split_duals_no_columns; [done|].
    apply list_elem_of_lookup in Hdual as [i Hi]. exists i.
    apply list_elem_of_lookup. exists i.
    rewrite list_lookup_imap. unfold declared_kinds in Hi. by rewrite Hi.
  - rewrite split_duals_no_dual; [done|].
    intros i Hi. apply Hdual.
    apply list_elem_of_lookup in Hi as [j Hj].
    rewrite list_lookup_imap in Hj. unfold declared_kinds.
    destruct ((SSE.dataType <$> SSE.params header) !! j) as [k|] eqn:Hk; [|done].
    injection Hj as _ ->. by eapply list_elem_of_lookup_2.
Qed.

(** An instance: one batch without rows, for two textual parameters and for
    one dual parameter. *)
Lemma transpose_without_rows_witness :
  request_rows [SSE.mkBundledRows []] = []
  ∧ get_arg_types (sample_header [SSE.STRING; SSE.STRING]) = ArgType.String
  ∧ get_arg_types (sample_header [SSE.DUAL]) = ArgType.Mixed
  ∧ transpose ArgType.String (sample_header [SSE.STRING; SSE.STRING]) [SSE.mkBundledRows []] fresh
    = (Return [], advance 1 fresh)
  ∧ transpose ArgType.Mixed (sample_header [SSE.DUAL]) [SSE.mkBundledRows []] fresh
    = (Raise IndexError, advance 1 fresh).
Proof.
  split; [reflexivity|]. split; [vm_compute; reflexivity|]. split; [vm_compute; reflexivity|].
  split.
  - exact (proj1 (transpose_without_rows (sample_header [SSE.STRING; SSE.STRING])
                    [SSE.mkBundledRows []] fresh eq_refl)).
  - refine (proj1 (proj2 (proj2 (transpose_without_rows (sample_header [SSE.DUAL])
                                   [SSE.mkBundledRows []] fresh eq_refl))) _).
    left.
Defined.

(** ** The shape of the columns of a request with rows *)

Lemma mixed_value_cell dual param :
  in_enum (SSE.dataType param) → mixed_value dual param = [cell dual param].
Proof.
  unfold in_enum, mixed_value, append_mixed, cell. intros H.
  repeat case_decide; simpl; try done. tauto.
Qed.

Lemma mixed_row duals params :
  Forall (fun p => in_enum (SSE.dataType p)) params →
  foldl append_mixed [] (zip duals params) = zip_with cell duals params.
Proof.
  intros Hall. revert duals.
  induction Hall as [|p params Hp Hall IH]; intros [|d duals]; try done.
  change (zip (d :: duals) (p :: params)) with ((d, p) :: zip duals params).
  rewrite foldl_append_mixed_cons, mixed_value_cell, IH by done. done.
Qed.

Lemma duals_at_cons j row rows :
  duals_at j (row :: rows)
  = (d ← SSE.duals row !! j; ds ← duals_at j rows; Some (d :: ds)).
Proof. done. Qed.

Lemma duals_at_rectangular j rows n :
  Forall (fun row => length (SSE.duals row) = n) rows → (j < n)%nat →
  ∃ ds, duals_at j rows = Some ds ∧ length ds = length rows.
Proof.
  intros Hall Hj. induction Hall as [|row rows Hrow Hall IH].
  - by exists [].
  - destruct IH as (ds & Hds & Hlen).
    destruct (lookup_lt_is_Some_2 (SSE.duals row) j) as [d Hd]; [lia|].
    exists (d :: ds). rewrite duals_at_cons, Hd, Hds. simpl. by rewrite Hlen.
Qed.

Lemma option_mapM_cons {A B} (f : A → option B) (x : A) (l : list A) :
  mapM f (x :: l) = (y ← f x; k ← mapM f l; Some (y :: k)).
Proof. done. Qed.

(** Column [j] of the first stage, from the values the rows hold at [j]. *)
Lemma columns_lookup (rows : list SSE.Row) (row_values : SSE.Row → list value) j :
  rows ≠ [] →
  columns (row_values <$> rows) !! j = VList <$> mapM (fun row => row_values row !! j) rows.
Proof.
  intros Hne. unfold columns. rewrite list_lookup_fmap, zip_star_lookup.
  - f_equal. clear Hne. induction rows as [|row rows IH]; [done|].
    by rewrite fmap_cons, !option_mapM_cons, IH.
  - by destruct rows.
Qed.

Lemma mapM_cells (rows : list SSE.Row) (row_values : SSE.Row → list value)
    (f : SSE.Dual → value) j :
  (∀ row, row_values row !! j = f <$> SSE.duals row !! j) →
  mapM (fun row => row_values row !! j) rows = fmap (M:=list) f <$> duals_at j rows.
Proof.
  intros Hf. induction rows as [|row rows IH]; [done|].
  rewrite duals_at_cons, option_mapM_cons, Hf, IH.
  destruct (SSE.duals row !! j); simpl; [|done].
  by destruct (duals_at j rows).
Qed.

Section Shape.
Variables (header : SSE.ScriptRequestHeader) (request : list SSE.BundledRows) (w : World).

Let rows := request_rows request.
Let N := length (SSE.params header).

Hypothesis some_row : rows ≠ [].
Hypothesis full_rows : Forall (fun row => length (SSE.duals row) = N) rows.

(** Under [String] and [Numeric] there are [N] columns, and column [j]
    holds the field of the duals at position [j] of the [M] rows. *)
Lemma transpose_uniform_shape arg_types (field : SSE.Dual → value) :
  arg_types ≠ ArgType.Mixed → supported arg_types →
  (∀ duals, extract arg_types header duals = field <$> duals) →
  ∃ cols,
    transpose arg_types header request w = (Return cols, advance (length request) w)
    ∧ length cols = N
    ∧ ∀ j, (j < N)%nat →
        ∃ ds, duals_at j rows = Some ds ∧ length ds = length rows
              ∧ cols !! j = Some (VList (field <$> ds)).
Proof.
  intros Hmixed Hs Hfield. eexists. split; [|split].
  - rewrite transpose_stages, collect_from_supported by done.
    unfold second_stage. rewrite decide_False by done. reflexivity.
  - simpl. unfold columns. rewrite length_fmap. apply zip_star_length.
    + fold rows. by destruct rows.
    + fold rows. apply Forall_fmap. eapply Forall_impl; [exact full_rows|].
      intros row Hrow. simpl. by rewrite Hfield, length_fmap.
  - intros j Hj. destruct (duals_at_rectangular j rows N full_rows Hj) as (ds & Hds & Hlen).
    exists ds. split; [done|]. split; [done|].
    simpl. fold rows. rewrite columns_lookup by done.
    rewrite (mapM_cells rows _ field), Hds; [done|].
    intros row. by rewrite Hfield, list_lookup_fmap.
Qed.

Lemma transpose_string_shape :
  ∃ cols,
    transpose ArgType.String header request w = (Return cols, advance (length request) w)
    ∧ length cols = N
    ∧ ∀ j, (j < N)%nat →
        ∃ ds, duals_at j rows = Some ds ∧ length ds = length rows
              ∧ cols !! j = Some (VList ((fun d => VStr (SSE.strData d)) <$> ds)).
Proof. apply transpose_uniform_shape; unfold supported; auto. Qed.

Lemma transpose_numeric_shape :
  ∃ cols,
    transpose ArgType.Numeric header request w = (Return cols, advance (length request) w)
    ∧ length cols = N
    ∧ ∀ j, (j < N)%nat →
        ∃ ds, duals_at j rows = Some ds ∧ length ds = length rows
              ∧ cols !! j = Some (VList ((fun d => VNum (SSE.numData d)) <$> ds)).
Proof. apply transpose_uniform_shape; unfold supported; auto. Qed.

End Shape.

(** ** The second stage under [Mixed] *)

Lemma split_dual_column all_rows i column column' :
  all_rows !! i = Some column → split_column column = Return column' →
  split_dual all_rows i = Return (<[i := column']> all_rows).
Proof.
  unfold split_dual, split_column. intros -> Hsplit.
  destruct (iter column) as [pairs|]; [|done]. simpl in *.
  destruct (mapM iter pairs) as [pairs'|]; [|done]. simpl in *.
  by injection Hsplit as <-.
Qed.

(** Two parallel fields of a non-empty list, transposed. *)
Lemma zip_star_pairs {A B} (f g : A → B) (xs : list A) :
  xs ≠ [] → zip_star ((fun x => [f x; g x]) <$> xs) = [f <$> xs; g <$> xs].
Proof.
  induction xs as [|x [|y xs] IH]; intros Hne; [done|done|].
  change (zip_star ((fun x => [f x; g x]) <$> x :: y :: xs))
    with (zip_with cons [f x; g x] (zip_star ((fun x => [f x; g x]) <$> y :: xs))).
  by rewrite IH.
Qed.

Lemma split_column_tuples (ds : list SSE.Dual) :
  ds ≠ [] →
  split_column (VList ((fun d => VTuple [VNum (SSE.numData d); VStr (SSE.strData d)]) <$> ds))
  = Return (VList [VList ((fun d => VNum (SSE.numData d)) <$> ds);
                   VList ((fun d => VStr (SSE.strData d)) <$> ds)]).
Proof.
  intros Hne. unfold split_column. simpl.
  rewrite (mapM_Return _ (fun v => match v with VTuple l => l | _ => [] end))
    by (by intros v (d & -> & _)%list_elem_of_fmap).
  simpl. rewrite <- list_fmap_compose.
  rewrite (list_fmap_ext _ (fun d => [VNum (SSE.numData d); VStr (SSE.strData d)]) ds)
    by done.
  by rewrite zip_star_pairs.
Qed.

(** The loop over the enumerated kinds, started at position [k]: the
    columns of the parameters declared dual are replaced by their split,
    the others stay. *)
Lemma split_duals_offset (kinds : list Z) (k : nat) (s : list value) :
  (∀ i, kinds !! i = Some SSE.DUAL →
        ∃ c c', s !! (k + i)%nat = Some c ∧ split_column c = Return c') →
  ∃ s', split_duals (imap (fun i => pair (k + i)%nat) kinds) s = Return s'
      ∧ length s' = length s
      ∧ ∀ j,
          ((j < k)%nat ∨ kinds !! (j - k)%nat ≠ Some SSE.DUAL → s' !! j = s !! j)
          ∧ ((k ≤ j)%nat → kinds !! (j - k)%nat = Some SSE.DUAL →
             ∃ c c', s !! j = Some c ∧ split_column c = Return c' ∧ s' !! j = Some c').
Proof.
  revert k s. induction kinds as [|kind kinds IH]; intros k s Hcols.
  { exists s. split; [done|]. split; [done|]. intros j. split; [done|].
    intros _ H. by rewrite lookup_nil in H. }
  change (imap (fun i => pair (k + i)%nat) (kind :: kinds))
    with ((k + 0, kind)%nat :: imap ((fun i => pair (k + i)%nat) ∘ S) kinds).
  rewrite (imap_ext _ (fun i => pair (S k + i)%nat)) by (intros; simpl; f_equal; lia).
  rewrite split_duals_cons, Nat.add_0_r.
  destruct (decide (kind = SSE.DUAL)) as [->|Hkind].
  - destruct (Hcols 0%nat eq_refl) as (c & c' & Hc & Hsplit).
    rewrite Nat.add_0_r in Hc.
    rewrite (split_dual_column s k c c') by done. rewrite Outcome_bind_Return.
    destruct (IH (S k) (<[k := c']> s)) as (s' & Hrun & Hlen & Hs').
    { intros i Hi. destruct (Hcols (S i) Hi) as (d & d' & Hd & Hsplit').
      exists d, d'. split; [|done].
      rewrite list_lookup_insert_ne by lia. by rewrite <- Hd, Nat.add_succ_r. }
    exists s'. split; [done|]. split; [by rewrite Hlen, length_insert|].
    intros j. split.
    + intros Hj. assert (j ≠ k) as Hjk.
      { intros ->. destruct Hj as [?|Hj]; [lia|]. by rewrite Nat.sub_diag in Hj. }
      destruct (Hs' j) as [Hsame _]. rewrite Hsame.
      { by rewrite list_lookup_insert_ne. }
      destruct Hj as [?|Hj]; [left; lia|].
      destruct (decide (j < k)%nat); [left; lia|right].
      by replace (j - k)%nat with (S (j - S k)) in Hj by lia.
    + intros Hkj Hj. destruct (decide (j = k)) as [->|Hjk].
      * exists c, c'. split; [done|]. split; [done|].
        destruct (Hs' k) as [Hsame _]. rewrite Hsame by (left; lia).
        apply list_lookup_insert_eq. by eapply lookup_lt_Some.
      * destruct (Hs' j) as [_ Hsplit'].
        replace (j - k)%nat with (S (j - S k)) in Hj by lia.
        destruct Hsplit' as (d & d' & Hd & Hsplit' & Hd'); [lia|done|].
        exists d, d'. by rewrite list_lookup_insert_ne in Hd by done.
  - rewrite Outcome_bind_Return.
    destruct (IH (S k) s) as (s' & Hrun & Hlen & Hs').
    { intros i Hi. destruct (Hcols (S i) Hi) as (d & d' & Hd & Hsplit').
      exists d, d'. by rewrite <- Hd, Nat.add_succ_r. }
    exists s'. split; [done|]. split; [done|].
    intros j. split.
    + intros Hj. destruct (Hs' j) as [Hsame _]. apply Hsame.
      destruct (decide (j ≤ k)%nat); [left; lia|right].
      destruct Hj as [?|Hj]; [lia|].
      by replace (j - k)%nat with (S (j - S k)) in Hj by lia.
    + intros Hkj Hj. assert (j ≠ k) as Hjk.
      { intros ->. rewrite Nat.sub_diag in Hj. simpl in Hj. congruence. }
      destruct (Hs' j) as [_ Hsplit'].
      replace (j - k)%nat with (S (j - S k)) in Hj by lia.
      apply Hsplit'; [lia|done].
Qed.

Lemma second_stage_mixed header all_rows :
  second_stage ArgType.Mixed header all_rows
  = split_duals (imap (fun i => pair (0 + i)%nat) (SSE.dataType <$> SSE.params header)) all_rows.
Proof. done. Qed.

Section MixedShape.
Variables (header : SSE.ScriptRequestHeader) (request : list SSE.BundledRows) (w : World).

Let rows := request_rows request.
Let N := length (SSE.params header).

Hypothesis some_row : rows ≠ [].
Hypothesis full_rows : Forall (fun row => length (SSE.duals row) = N) rows.
Hypothesis kinds_in_enum : Forall (fun p => in_enum (SSE.dataType p)) (SSE.params header).

(** The columns after the first stage. *)
Lemma mixed_columns_lookup j p :
  SSE.params header !! j = Some p →
  ∃ ds, duals_at j rows = Some ds ∧ length ds = length rows
        ∧ columns ((fun row => extract ArgType.Mixed header (SSE.duals row)) <$> rows) !! j
          = Some (VList ((fun d => cell d p) <$> ds)).
Proof.
  intros Hp.
  destruct (duals_at_rectangular j rows N full_rows) as (ds & Hds & Hlen).
  { by eapply lookup_lt_Some. }
  exists ds. split; [done|]. split; [done|].
  rewrite columns_lookup by done.
  rewrite (mapM_cells rows _ (fun d => cell d p)), Hds; [done|].
  intros row. simpl. rewrite mixed_row, lookup_zip_with, Hp by done.
  by destruct (SSE.duals row !! j).
Qed.

Lemma mixed_columns_length :
  length (columns ((fun row => extract ArgType.Mixed header (SSE.duals row)) <$> rows)) = N.
Proof.
  unfold columns. rewrite length_fmap. apply zip_star_length.
  - by destruct rows.
  - apply Forall_fmap. eapply Forall_impl; [exact full_rows|].
    intros row Hrow. simpl. rewrite mixed_row, length_zip_with, Hrow by done.
    unfold N. lia.
Qed.

(** Under [Mixed], with at least one row, rows of [N] duals and declared
    kinds of the enum, there are [N] columns; the column of a parameter
    declared dual is the pair of the numeric and of the textual column, each
    of the length [M] of the request, and the column of any other parameter
    is one flat column of length [M]. *)
Lemma transpose_mixed_shape :
  ∃ cols,
    transpose ArgType.Mixed header request w = (Return cols, advance (length request) w)
    ∧ length cols = N
    ∧ ∀ j p, SSE.params header !! j = Some p →
        ∃ ds, duals_at j rows = Some ds ∧ length ds = length rows
              ∧ cols !! j = Some
                  (if decide (SSE.dataType p = SSE.DUAL) then
                     VList [VList ((fun d => VNum (SSE.numData d)) <$> ds);
                            VList ((fun d => VStr (SSE.strData d)) <$> ds)]
                   else if decide (SSE.dataType p = SSE.STRING) then
                     VList ((fun d => VStr (SSE.strData d)) <$> ds)
                   else VList ((fun d => VNum (SSE.numData d)) <$> ds)).
Proof.
  rewrite transpose_stages, collect_from_supported by (unfold supported; auto).
  rewrite second_stage_mixed, app_nil_l. fold rows.
  set (cols1 := columns ((fun row => extract ArgType.Mixed header (SSE.duals row)) <$> rows)).
  assert (∀ p (ds : list SSE.Dual), SSE.dataType p = SSE.DUAL →
            (fun d => cell d p) <$> ds
            = (fun d => VTuple [VNum (SSE.numData d); VStr (SSE.strData d)]) <$> ds)
    as Hdual.
  { intros p ds Hp. apply list_fmap_ext. intros _ d _. unfold cell.
    rewrite Hp. by rewrite !decide_False. }
  destruct (split_duals_offset (SSE.dataType <$> SSE.params header) 0 cols1)
    as (cols & Hrun & Hlen & Hcols).
  { intros i Hi. apply list_lookup_fmap_Some in Hi as (p & Hp & Hkind).
    destruct (mixed_columns_lookup i p Hkind) as (ds & Hds & Hlends & Hcol).
    assert (ds ≠ []) by (destruct ds, rows; done).
    eexists _, _. split; [exact Hcol|].
    rewrite (Hdual p ds) by done. by apply split_column_tuples. }
  exists cols. split; [by rewrite Hrun|].
  split; [by rewrite Hlen; apply mixed_columns_length|].
  intros j p Hp.
  destruct (mixed_columns_lookup j p Hp) as (ds & Hds & Hlends & Hcol).
  exists ds. split; [done|]. split; [done|].
  destruct (Hcols j) as [Hsame Hsplit]. rewrite Nat.sub_0_r in *.
  rewrite list_lookup_fmap, Hp in Hsame, Hsplit. simpl in *.
  case_decide as Hkind.
  - destruct Hsplit as (c & c' & Hc & Hsp & ->); [lia|by rewrite Hkind|].
    fold cols1 in Hcol. rewrite Hcol in Hc. injection Hc as <-.
    assert (ds ≠ []) by (destruct ds, rows; done).
    rewrite (Hdual p ds), split_column_tuples in Hsp by done.
    by injection Hsp as <-.
  - rewrite Hsame by (right; congruence). fold cols1 in Hcol. rewrite Hcol.
    f_equal.
    assert (in_enum (SSE.dataType p)) as Henum.
    { eapply (proj1 (Forall_forall _ _) kinds_in_enum). by eapply list_elem_of_lookup_2. }
    case_decide as Hstring; f_equal; apply list_fmap_ext; intros _ d _; unfold cell.
    + by rewrite decide_True.
    + rewrite decide_False by done. rewrite decide_True; [done|].
      unfold in_enum in Henum. tauto.
Qed.

End MixedShape.

(** ** Scenarios of the specification *)

(** Scenario A: two numeric parameters and the rows (1, 7) and (2, 8). *)
Example scenario_numeric :
  get_arg_types (sample_header [SSE.NUMERIC; SSE.NUMERIC]) = ArgType.Numeric
  ∧ (transpose ArgType.Numeric (sample_header [SSE.NUMERIC; SSE.NUMERIC])
       [SSE.mkBundledRows [SSE.mkRow [SSE.mkDual 1 "a"; SSE.mkDual 7 "b"];
                           SSE.mkRow [SSE.mkDual 2 "c"; SSE.mkDual 8 "d"]]] fresh).1
    = Return [VList [VNum 1; VNum 2]; VList [VNum 7; VNum 8]].
Proof. by vm_compute. Qed.

(** Scenario B: a textual and a numeric parameter classify as [Mixed]. *)
Example scenario_mixed :
  get_arg_types (sample_header [SSE.STRING; SSE.NUMERIC]) = ArgType.Mixed
  ∧ (transpose ArgType.Mixed (sample_header [SSE.STRING; SSE.NUMERIC])
       [SSE.mkBundledRows [SSE.mkRow [SSE.mkDual 0 "a"; SSE.mkDual 3 ""]]] fresh).1
    = Return [VList [VStr "a"]; VList [VNum 3]].
Proof. by vm_compute. Qed.

(** Scenario C: one dual parameter and one row. *)
Example scenario_dual :
  get_arg_types (sample_header [SSE.DUAL]) = ArgType.Mixed
  ∧ (transpose ArgType.Mixed (sample_header [SSE.DUAL])
       [SSE.mkBundledRows [SSE.mkRow [SSE.mkDual 5 "x"]]] fresh).1
    = Return [VList [VList [VNum 5]; VList [VStr "x"]]].
Proof. by vm_compute. Qed.

(** Scenario D: no parameter, and a script that returns the string "ok". *)
Example scenario_empty :
  get_arg_types (sample_header []) = ArgType.Empty
  ∧ emitted (EvaluateScript (fun _ _ => Return (VStr "ok")) (sample_header []) [] fresh).2
    = [SSE.mkBundledRows [SSE.mkRow [SSE.mkDual 0 "ok"]]].
Proof. by vm_compute. Qed.


(** * Further properties *)

(** ** Columns by position *)

Lemma duals_at_is_Some j rows :
  is_Some (duals_at j rows) ↔ Forall (fun row => (j < length (SSE.duals row))%nat) rows.
Proof.
  induction rows as [|row rows IH].
  - split; [constructor | by eexists].
  - rewrite duals_at_cons, Forall_cons, <- IH, <- lookup_lt_is_Some.
    destruct (SSE.duals row !! j) as [d|]; simpl.
    + destruct (duals_at j rows) as [ds|]; simpl.
      * split; [intros _; split; by eexists | by eexists].
      * split; [by intros [? ?] | by intros [_ [? ?]]].
    + split; [by intros [? ?] | by intros [[? ?] _]].
Qed.

Lemma transpose_uniform_lookup arg_types (field : SSE.Dual → value) header request w :
  arg_types ≠ ArgType.Mixed → supported arg_types →
  (∀ duals, extract arg_types header duals = field <$> duals) →
  request_rows request ≠ [] →
  ∃ cols,
    transpose arg_types header request w = (Return cols, advance (length request) w)
    ∧ ∀ j, cols !! j = (fun ds => VList (field <$> ds)) <$> duals_at j (request_rows request).
Proof.
  intros Hmixed Hs Hfield Hrows. eexists. split.
  - rewrite transpose_stages, collect_from_supported by done.
    unfold second_stage. rewrite decide_False by done. reflexivity.
  - intros j. rewrite app_nil_l, columns_lookup by done.
    rewrite (mapM_cells _ _ field) by (intros row; by rewrite Hfield, list_lookup_fmap).
    by destruct (duals_at j (request_rows request)).
Qed.

(** X1. For a request with at least one row, under [String] and under
    [Numeric], column [j] exists exactly when every row has a dual at
    position [j], and it then holds the field of those duals in the order
    of the rows: the columns stop at the shortest row, whatever the number
    of declared parameters. *)
Theorem transpose_columns_by_position (header : SSE.ScriptRequestHeader)
    (request : list SSE.BundledRows) (w : World) :
  request_rows request ≠ [] →
  ∃ strs nums,
    transpose ArgType.String header request w = (Return strs, advance (length request) w)
    ∧ transpose ArgType.Numeric header request w = (Return nums, advance (length request) w)
    ∧ ∀ j,
        strs !! j = (fun ds => VList ((fun d => VStr (SSE.strData d)) <$> ds))
                    <$> duals_at j (request_rows request)
        ∧ nums !! j = (fun ds => VList ((fun d => VNum (SSE.numData d)) <$> ds))
                      <$> duals_at j (request_rows request)
        ∧ ((j < length strs)%nat
           ↔ Forall (fun row => (j < length (SSE.duals row))%nat) (request_rows request)).
Proof.
  intros Hrows.
  destruct (transpose_uniform_lookup ArgType.String (fun d => VStr (SSE.strData d))
              header request w) as (strs & Hstrs & Hs); try done; [unfold supported; auto|].
  destruct (transpose_uniform_lookup ArgType.Numeric (fun d => VNum (SSE.numData d))
              header request w) as (nums & Hnums & Hn); try done; [unfold supported; auto|].
  exists strs, nums. split; [done|]. split; [done|].
  intros j. split; [done|]. split; [done|].
  rewrite <- duals_at_is_Some, <- lookup_lt_is_Some, Hs.
  by rewrite fmap_is_Some.
Qed.

(** An instance: two rows, the second one with a single dual. *)
Lemma transpose_columns_by_position_witness :
  ∃ strs nums,
    transpose ArgType.String (sample_header [SSE.STRING; SSE.STRING])
      [SSE.mkBundledRows [sample_row; SSE.mkRow [SSE.mkDual 6 "u"]]] fresh
    = (Return strs, advance 1 fresh)
    ∧ transpose ArgType.Numeric (sample_header [SSE.STRING; SSE.STRING])
        [SSE.mkBundledRows [sample_row; SSE.mkRow [SSE.mkDual 6 "u"]]] fresh
      = (Return nums, advance 1 fresh)
    ∧ strs = [VList [VStr "x"; VStr "u"]] ∧ nums = [VList [VNum 5; VNum 6]].
Proof.
  destruct (transpose_columns_by_position (sample_header [SSE.STRING; SSE.STRING])
              [SSE.mkBundledRows [sample_row; SSE.mkRow [SSE.mkDual 6 "u"]]] fresh)
    as (strs & nums & Hstrs & Hnums & _); [discriminate|].
  exists strs, nums. split; [exact Hstrs|]. split; [exact Hnums|].
  split.
  - vm_compute in Hstrs. injection Hstrs as ->. reflexivity.
  - vm_compute in Hnums. injection Hnums as ->. reflexivity.
Defined.

(** ** The shape of well-formed requests *)

(** X2. For a request with M >= 1 rows that all carry N duals, N being the
    number of declared parameters, transposition under [String] and under
    [Numeric] yields exactly N columns, and column [j] holds the M textual
    (numeric) fields of the duals at position [j], in the order of the rows. *)
Theorem transpose_rectangular (header : SSE.ScriptRequestHeader)
    (request : list SSE.BundledRows) (w : World) :
  request_rows request ≠ [] →
  Forall (fun row => length (SSE.duals row) = length (SSE.params header))
         (request_rows request) →
  ∃ strs nums,
    transpose ArgType.String header request w = (Return strs, advance (length request) w)
    ∧ transpose ArgType.Numeric header request w = (Return nums, advance (length request) w)
    ∧ length strs = length (SSE.params header)
    ∧ length nums = length (SSE.params header)
    ∧ ∀ j, (j < length (SSE.params header))%nat →
        ∃ ds, duals_at j (request_rows request) = Some ds
              ∧ length ds = length (request_rows request)
              ∧ strs !! j = Some (VList ((fun d => VStr (SSE.strData d)) <$> ds))
              ∧ nums !! j = Some (VList ((fun d => VNum (SSE.numData d)) <$> ds)).
Proof.
  intros Hrows Hfull.
  destruct (transpose_string_shape header request w Hrows Hfull) as (strs & Hs & Hls & Hcs).
  destruct (transpose_numeric_shape header request w Hrows Hfull) as (nums & Hn & Hln & Hcn).
  exists strs, nums. repeat (split; [done|]).
  intros j Hj.
  destruct (Hcs j Hj) as (ds & Hds & Hlen & Hs').
  destruct (Hcn j Hj) as (ds' & Hds' & _ & Hn').
  rewrite Hds in Hds'. injection Hds' as <-. eauto 10.
Qed.

(** An instance: the two rows of the sample batch for two parameters. *)
Lemma transpose_rectangular_witness :
  ∃ strs nums,
    transpose ArgType.String (sample_header [SSE.STRING; SSE.STRING]) [sample_batch] fresh
    = (Return strs, advance 1 fresh)
    ∧ transpose ArgType.Numeric (sample_header [SSE.STRING; SSE.STRING]) [sample_batch] fresh
      = (Return nums, advance 1 fresh)
    ∧ length strs = 2%nat ∧ length nums = 2%nat.
Proof.
  destruct (transpose_rectangular (sample_header [SSE.STRING; SSE.STRING])
              [sample_batch] fresh) as (strs & nums & Hs & Hn & Hls & Hln & _).
  - discriminate.
  - repeat constructor.
  - exists strs, nums. split; [exact Hs|]. split; [exact Hn|]. split; [exact Hls|exact Hln].
Defined.

(** X3. Under [Mixed], for a request with M >= 1 rows of N duals and declared
    kinds that all are of the enum, there are N columns: the column of a
    parameter declared dual is the pair of the numeric column and of the
    textual column, each of length M, and the column of a textual (numeric)
    parameter is the flat column of the M textual (numeric) fields. *)
Theorem transpose_mixed_columns (header : SSE.ScriptRequestHeader)
    (request : list SSE.BundledRows) (w : World) :
  request_rows request ≠ [] →
  Forall (fun row => length (SSE.duals row) = length (SSE.params header))
         (request_rows request) →
  Forall (fun p => in_enum (SSE.dataType p)) (SSE.params header) →
  ∃ cols,
    transpose ArgType.Mixed header request w = (Return cols, advance (length request) w)
    ∧ length cols = length (SSE.params header)
    ∧ ∀ j p, SSE.params header !! j = Some p →
        ∃ ds, duals_at j (request_rows request) = Some ds
              ∧ length ds = length (request_rows request)
              ∧ cols !! j = Some
                  (if decide (SSE.dataType p = SSE.DUAL) then
                     VList [VList ((fun d => VNum (SSE.numData d)) <$> ds);
                            VList ((fun d => VStr (SSE.strData d)) <$> ds)]
                   else if decide (SSE.dataType p = SSE.STRING) then
                     VList ((fun d => VStr (SSE.strData d)) <$> ds)
                   else VList ((fun d => VNum (SSE.numData d)) <$> ds)).
Proof. intros Hrows Hfull Henum. by apply transpose_mixed_shape. Qed.

(** An instance: a dual and a textual parameter over the sample batch. *)
Lemma transpose_mixed_columns_witness :
  ∃ cols,
    transpose ArgType.Mixed (sample_header [SSE.DUAL; SSE.STRING]) [sample_batch] fresh
    = (Return cols, advance 1 fresh)
    ∧ length cols = 2%nat
    ∧ cols = [VList [VList [VNum 5; VNum 6]; VList [VStr "x"; VStr "u"]];
              VList [VStr "yz"; VStr "vw"]].
Proof.
  destruct (transpose_mixed_columns (sample_header [SSE.DUAL; SSE.STRING])
              [sample_batch] fresh) as (cols & Hrun & Hlen & _).
  - discriminate.
  - repeat constructor.
  - apply (bool_decide_unpack _). vm_compute. exact I.
  - exists cols. split; [exact Hrun|]. split; [exact Hlen|].
    vm_compute in Hrun. injection Hrun as ->. reflexivity.
Defined.

(** X4. Under [Mixed] with declared kinds of the enum, the extracted row
    pairs the duals with the parameters by position and takes from each dual
    what the kind of its own parameter asks for: the text, the number, or
    the tuple of both. Duals beyond the last parameter and parameters beyond
    the last dual are dropped, and the context is not touched. *)
Theorem get_arguments_mixed_by_kind (header : SSE.ScriptRequestHeader)
    (duals : list SSE.Dual) (w : World) :
  Forall (fun p => in_enum (SSE.dataType p)) (SSE.params header) →
  get_arguments ArgType.Mixed duals header w
    = (Return (zip_with cell duals (SSE.params header)), w)
  ∧ length (zip_with cell duals (SSE.params header))
    = (length duals `min` length (SSE.params header))%nat
  ∧ ∀ j d p, duals !! j = Some d → SSE.params header !! j = Some p →
      zip_with cell duals (SSE.params header) !! j
      = Some (if decide (SSE.dataType p = SSE.STRING) then VStr (SSE.strData d)
              else if decide (SSE.dataType p = SSE.NUMERIC) then VNum (SSE.numData d)
              else VTuple [VNum (SSE.numData d); VStr (SSE.strData d)]).
Proof.
  intros Henum. split; [|split].
  - rewrite get_arguments_extract by (unfold supported; auto).
    simpl. by rewrite mixed_row.
  - apply length_zip_with.
  - intros j d p Hd Hp. by rewrite lookup_zip_with, Hd, Hp.
Qed.

(** An instance: three duals for a textual and a dual parameter. *)
Lemma get_arguments_mixed_by_kind_witness :
  get_arguments ArgType.Mixed [SSE.mkDual 1 "a"; SSE.mkDual 2 "b"; SSE.mkDual 3 "c"]
    (sample_header [SSE.STRING; SSE.DUAL]) fresh
  = (Return [VStr "a"; VTuple [VNum 2; VStr "b"]], fresh).
Proof.
  refine (proj1 (get_arguments_mixed_by_kind (sample_header [SSE.STRING; SSE.DUAL])
                   [SSE.mkDual 1 "a"; SSE.mkDual 2 "b"; SSE.mkDual 3 "c"] fresh _)).
  apply (bool_decide_unpack _). vm_compute. exact I.
Defined.

(** ** The stages of an invocation *)

Lemma evaluate_and_yield_evaluated eval header params w :
  evaluate_and_yield eval header params w = evaluated eval header params w.
Proof.
  unfold evaluate_and_yield, evaluated. rewrite M_bind_run, evaluate_run.
  destruct (eval _ params) as [result|e]; [|done].
  by destruct (encode result _).
Qed.

(** What [evaluated] does to the world, and what it does not read of it. *)
Lemma evaluated_world eval header params w :
  context (evaluated eval header params w).2 = context w
  ∧ pulled (evaluated eval header params w).2 = pulled w
  ∧ (evaluated eval header params w).1
    = (result ← eval (SSE.script header) params;
       b ← encode result (get_return_type header); mret tt)
  ∧ emitted (evaluated eval header params w).2
    = emitted w ++ match (result ← eval (SSE.script header) params;
                          encode result (get_return_type header)) with
                   | Return b => [b]
                   | Raise _ => []
                   end.
Proof.
  unfold evaluated. destruct (eval _ params) as [result|e]; simpl.
  - destruct (encode result _); simpl; by rewrite ?app_nil_r.
  - by rewrite app_nil_r.
Qed.

(** The world a transposition leaves, with the reason of a raise from the
    extraction. *)
Lemma transpose_world_reason arg_types header request w :
  (∃ o, transpose arg_types header request w = (o, advance (length request) w))
  ∨ (¬ supported arg_types ∧ request_rows request ≠ []
     ∧ ∃ n, (0 < n ≤ length request)%nat
          ∧ transpose arg_types header request w
            = (Raise (RpcError grpc.INVALID_ARGUMENT undefined_msg),
               invalid_argument (advance n w))).
Proof.
  rewrite transpose_stages.
  destruct (decide (supported arg_types)) as [Hs|Hs].
  { left. rewrite collect_from_supported by done. eauto. }
  destruct (decide (request_rows request = [])) as [Hrows|Hrows].
  { left. rewrite collect_from_no_rows by done. eauto. }
  right. destruct (collect_from_raises arg_types header request [] w Hs Hrows)
    as (n & Hn & ->). eauto 10.
Qed.

(** X5. An invocation is the sequence of its three stages in the exception
    monad: the transposition of the request (none without declared
    parameters), the evaluation of the script on the columns, the encoding
    of its result. The first stage that raises ends the invocation with its
    exception and nothing is yielded; when all three return, the one batch
    yielded is the encoded result. *)
Theorem EvaluateScript_stages (eval : string → list value → Outcome value)
    (header : SSE.ScriptRequestHeader) (request : list SSE.BundledRows) (w : World) :
  (EvaluateScript eval header request w).1
    = (b ← stages eval header request w; mret tt)
  ∧ emitted (EvaluateScript eval header request w).2
    = emitted w ++ match stages eval header request w with
                   | Return b => [b]
                   | Raise _ => []
                   end.
Proof.
  rewrite EvaluateScript_run. cbv zeta. unfold stages, passed_arguments.
  fold (info_record header).
  case_bool_decide as Hparams.
  - destruct (transpose_world_reason (get_arg_types header) header request
                (logged (info_record header) w))
      as [[o Ht] | (_ & _ & n & _ & Ht)]; rewrite Ht; simpl.
    + destruct o as [cols|e]; simpl; [|by rewrite app_nil_r].
      rewrite evaluate_and_yield_evaluated.
      match goal with |- context [evaluated eval header cols ?w2] =>
        destruct (evaluated_world eval header cols w2) as (_ & _ & -> & ->)
      end.
      split; [|done].
      destruct (eval _ cols) as [result|]; simpl; [|done].
      by destruct (encode result _).
    + by rewrite app_nil_r.
  - rewrite evaluate_and_yield_evaluated.
    destruct (evaluated_world eval header [] (logged (info_record header) w))
      as (_ & _ & -> & ->).
    split; [|done]. simpl.
    destruct (eval _ []) as [result|]; simpl; [|done].
    by destruct (encode result _).
Qed.

(** ** What an invocation depends on *)

Lemma transpose_rows arg_types header request request' w w' :
  request_rows request = request_rows request' →
  (transpose arg_types header request w).1 = (transpose arg_types header request' w').1.
Proof.
  intros Hrows. rewrite !transpose_stages.
  destruct (decide (supported arg_types)) as [Hs|Hs].
  { rewrite !collect_from_supported by done. simpl. by rewrite Hrows. }
  destruct (decide (request_rows request = [])) as [Hnil|Hnil].
  { rewrite !collect_from_no_rows by congruence. done. }
  destruct (collect_from_raises arg_types header request [] w Hs Hnil) as (n & _ & ->).
  destruct (collect_from_raises arg_types header request' [] w' Hs) as (n' & _ & ->);
    [congruence|done].
Qed.

(** X6. How the rows of a request are cut into batches does not matter: two
    requests with the same rows in the same order give the same transposed
    columns, and their invocations end with the same return or exception
    and yield the same batches. *)
Theorem batching_is_irrelevant (eval : string → list value → Outcome value)
    (header : SSE.ScriptRequestHeader) (request request' : list SSE.BundledRows)
    (w : World) :
  request_rows request = request_rows request' →
  (∀ arg_types,
     (transpose arg_types header request w).1 = (transpose arg_types header request' w).1)
  ∧ (EvaluateScript eval header request w).1 = (EvaluateScript eval header request' w).1
  ∧ emitted (EvaluateScript eval header request w).2
    = emitted (EvaluateScript eval header request' w).2.
Proof.
  intros Hrows. split; [intros; by apply transpose_rows|].
  destruct (EvaluateScript_stages eval header request w) as [-> ->].
  destruct (EvaluateScript_stages eval header request' w) as [-> ->].
  assert (stages eval header request w = stages eval header request' w) as ->; [|done].
  unfold stages, passed_arguments. case_bool_decide; [|done].
  by rewrite (transpose_rows (get_arg_types header) header request request'
                (logged (info_record header) w) (logged (info_record header) w) Hrows).
Qed.

(** An instance: the sample rows in one batch and in two. *)
Lemma batching_is_irrelevant_witness :
  (EvaluateScript args_script (sample_header [SSE.STRING; SSE.STRING]) [sample_batch] fresh).1
  = (EvaluateScript args_script (sample_header [SSE.STRING; SSE.STRING])
       [SSE.mkBundledRows [sample_row]; SSE.mkBundledRows [];
        SSE.mkBundledRows [SSE.mkRow [SSE.mkDual 6 "u"; SSE.mkDual 8 "vw"]]] fresh).1.
Proof.
  refine (proj1 (proj2 (batching_is_irrelevant args_script
    (sample_header [SSE.STRING; SSE.STRING]) [sample_batch]
    [SSE.mkBundledRows [sample_row]; SSE.mkBundledRows [];
     SSE.mkBundledRows [SSE.mkRow [SSE.mkDual 6 "u"; SSE.mkDual 8 "vw"]]] fresh _))).
  reflexivity.
Defined.

(** X7. Without declared parameters the request is ignored altogether: the
    classification is [Empty], no batch is pulled, the script is evaluated on
    no argument, and two invocations that differ in their requests only end
    in the same world. *)
Theorem no_parameter_ignores_request (eval : string → list value → Outcome value)
    (header : SSE.ScriptRequestHeader) (request request' : list SSE.BundledRows)
    (w : World) :
  SSE.params header = [] →
  get_arg_types header = ArgType.Empty
  ∧ EvaluateScript eval header request w = EvaluateScript eval header request' w
  ∧ EvaluateScript eval header request w
    = evaluated eval header [] (logged (info_record header) w)
  ∧ pulled (EvaluateScript eval header request w).2 = pulled w.
Proof.
  intros Hparams.
  assert (EvaluateScript eval header request w
          = evaluated eval header [] (logged (info_record header) w)) as Hrun.
  { rewrite EvaluateScript_run. cbv zeta.
    rewrite bool_decide_eq_false_2 by (by rewrite Hparams; intros []).
    by rewrite evaluate_and_yield_evaluated. }
  split; [|split; [|split]].
  - unfold get_arg_types. by rewrite Hparams.
  - rewrite !EvaluateScript_run. cbv zeta.
    by rewrite bool_decide_eq_false_2 by (by rewrite Hparams; intros []).
  - done.
  - rewrite Hrun.
    by destruct (evaluated_world eval header [] (logged (info_record header) w))
      as (_ & -> & _).
Qed.

(** An instance: no parameter, an empty request and one of two batches. *)
Lemma no_parameter_ignores_request_witness :
  EvaluateScript args_script (sample_header []) [] fresh
  = EvaluateScript args_script (sample_header []) [sample_batch; sample_batch] fresh.
Proof.
  exact (proj1 (proj2 (no_parameter_ignores_request args_script (sample_header [])
                         [] [sample_batch; sample_batch] fresh eq_refl))).
Defined.

(** X8. The status and the details of the context are set in one case only:
    parameters are declared, the classification is one [get_arguments] has
    no branch for, and the request carries a row; the invocation then ends
    with the [RpcError] of status INVALID_ARGUMENT. In every other
    invocation, also one that ends with an error of the second stage, of
    the script or of the encoding, the context is left as it was. *)
Theorem context_set_only_by_extraction (eval : string → list value → Outcome value)
    (header : SSE.ScriptRequestHeader) (request : list SSE.BundledRows) (w : World) :
  context (EvaluateScript eval header request w).2 = context w
  ∨ ((EvaluateScript eval header request w).1
       = Raise (RpcError grpc.INVALID_ARGUMENT "Undefined argument type: ")
     ∧ context (EvaluateScript eval header request w).2
       = mkContext (Some grpc.INVALID_ARGUMENT) (Some "Undefined argument type: ")
     ∧ SSE.params header ≠ []
     ∧ ¬ supported (get_arg_types header)
     ∧ request_rows request ≠ []).
Proof.
  rewrite EvaluateScript_run. cbv zeta. fold (info_record header).
  case_bool_decide as Hparams.
  - destruct (transpose_world_reason (get_arg_types header) header request
                (logged (info_record header) w))
      as [[o Ht] | (Hs & Hrows & n & _ & Ht)]; rewrite Ht.
    + left. destruct o as [cols|e]; [|done].
      rewrite evaluate_and_yield_evaluated.
      match goal with |- context [evaluated eval header cols ?w2] =>
        by destruct (evaluated_world eval header cols w2) as (-> & _)
      end.
    + right. done.
  - left. rewrite evaluate_and_yield_evaluated.
    by destruct (evaluated_world eval header [] (logged (info_record header) w))
      as (-> & _).
Qed.

(** X9. The extraction fails at the first row it meets: with a
    classification [get_arguments] has no branch for, a request that starts
    with batches without rows followed by a batch with a row raises after
    exactly these batches have been pulled; what follows in the request is
    never read. *)
Theorem extraction_fails_at_first_row (arg_types : ArgType.t)
    (header : SSE.ScriptRequestHeader) (empties rest : list SSE.BundledRows)
    (b : SSE.BundledRows) (w : World) :
  ¬ supported arg_types →
  Forall (fun b => SSE.rows b = []) empties → SSE.rows b ≠ [] →
  transpose arg_types header (empties ++ b :: rest) w
  = (Raise (RpcError grpc.INVALID_ARGUMENT "Undefined argument type: "),
     invalid_argument (advance (S (length empties)) w)).
Proof.
  intros Hs Hempties Hb. rewrite transpose_stages.
  assert (∀ all_rows w,
            collect_from arg_types header (empties ++ b :: rest) all_rows w
            = (Raise (RpcError grpc.INVALID_ARGUMENT undefined_msg),
               invalid_argument (advance (S (length empties)) w))) as ->; [|done].
  induction Hempties as [|b0 empties Hb0 _ IH]; intros all_rows w0.
  - simpl. rewrite collect_from_cons.
    destruct (SSE.rows b) as [|row rows]; [done|].
    by rewrite collect_rows_raises.
  - simpl. rewrite collect_from_cons, Hb0, collect_rows_nil, IH.
    by rewrite advance_S.
Qed.

(** An instance: the classification [Undefined], an empty batch, the sample
    batch and one more. *)
Lemma extraction_fails_at_first_row_witness :
  transpose ArgType.Undefined (sample_header [7])
    ([SSE.mkBundledRows []] ++ sample_batch :: [sample_batch]) fresh
  = (Raise (RpcError grpc.INVALID_ARGUMENT "Undefined argument type: "),
     invalid_argument (advance 2 fresh)).
Proof.
  apply (extraction_fails_at_first_row ArgType.Undefined (sample_header [7])
           [SSE.mkBundledRows []] [sample_batch] sample_batch fresh).
  - unfold supported. intros [H|[H|H]]; discriminate H.
  - repeat constructor.
  - discriminate.
Defined.

(** X10. A request without rows hands no column at all to the script, like
    an invocation without parameters, whatever the classification, the
    unsupported ones included; the one exception is [Mixed] with a parameter
    declared dual. *)
Theorem no_row_passes_no_argument (eval : string → list value → Outcome value)
    (header : SSE.ScriptRequestHeader) (request : list SSE.BundledRows) (w : World) :
  request_rows request = [] →
  (get_arg_types header = ArgType.Mixed → SSE.DUAL ∉ declared_kinds header) →
  passed_arguments header request w = Return []
  ∧ (EvaluateScript eval header request w).1
    = (evaluated eval header [] w).1
  ∧ emitted (EvaluateScript eval header request w).2
    = emitted (evaluated eval header [] w).2.
Proof.
  intros Hrows Hdual.
  assert (passed_arguments header request w = Return []) as Hpassed.
  { unfold passed_arguments. case_bool_decide; [|done].
    rewrite transpose_stages, collect_from_no_rows by done. simpl.
    unfold second_stage. case_decide as Hmixed; [|done].
    apply split_duals_no_dual. intros i Hi. apply (Hdual Hmixed).
    apply list_elem_of_lookup in Hi as [j Hj].
    rewrite list_lookup_imap in Hj. unfold declared_kinds.
    destruct ((SSE.dataType <$> SSE.params header) !! j) as [k|] eqn:Hk; [|done].
    injection Hj as _ ->. by eapply list_elem_of_lookup_2. }
  split; [done|].
  destruct (EvaluateScript_stages eval header request w) as [-> ->].
  destruct (evaluated_world eval header [] w) as (_ & _ & -> & ->).
  unfold stages. rewrite Hpassed. simpl.
  split; [|done].
  destruct (eval _ []) as [result|]; simpl; [|done].
  by destruct (encode result _).
Qed.

(** An instance: parameters of kind 7, classified [Undefined], and a
    request of one batch without rows. *)
Lemma no_row_passes_no_argument_witness :
  passed_arguments (sample_header [7; 7]) [SSE.mkBundledRows []] fresh = Return []
  ∧ (EvaluateScript args_script (sample_header [7; 7]) [SSE.mkBundledRows []] fresh).1
    = (evaluated args_script (sample_header [7; 7]) [] fresh).1
  ∧ emitted (EvaluateScript args_script (sample_header [7; 7]) [SSE.mkBundledRows []] fresh).2
    = emitted (evaluated args_script (sample_header [7; 7]) [] fresh).2.
Proof.
  apply (no_row_passes_no_argument args_script (sample_header [7; 7])
           [SSE.mkBundledRows []] fresh).
  - reflexivity.
  - vm_compute. discriminate.
Defined.

(** ** What the encoder accepts and what it gives back *)

Section MapM.
Context {A B : Type}.
Implicit Types (f : A → Outcome B) (l : list A).





End MapM.








(** A result of three levels and a number among strings are refused. *)
Example encode_refuses :
  encode (VList [VList [VList [VStr "a"]]]) ReturnType.String = Raise TypeError
  ∧ encode (VList [VStr "a"; VNum 1]) ReturnType.String = Raise TypeError
  ∧ encode (VStr "a") ReturnType.Numeric = Raise TypeError.
Proof. done. Qed.





(** X13. A flat sequence of scalars is encoded as one row per scalar, each
    with a single dual, and not as one row of many columns; a single scalar
    is one row of one dual, and a tuple is encoded like the list of its
    elements. *)
Theorem encode_flat_sequence :
  (∀ l : list string,
     encode (VList (VStr <$> l)) ReturnType.String
     = Return (SSE.mkBundledRows ((fun s => SSE.mkRow [str_dual s]) <$> l)))
  ∧ (∀ l : list float,
       encode (VList (VNum <$> l)) ReturnType.Numeric
       = Return (SSE.mkBundledRows ((fun x => SSE.mkRow [num_dual x]) <$> l)))
  ∧ (∀ s, encode (VStr s) ReturnType.String
          = Return (SSE.mkBundledRows [SSE.mkRow [str_dual s]]))
  ∧ (∀ x, encode (VNum x) ReturnType.Numeric
          = Return (SSE.mkBundledRows [SSE.mkRow [num_dual x]]))
  ∧ (∀ l ret_type, encode (VTuple l) ret_type = encode (VList l) ret_type).
Proof.
  split; [|split; [|split; [|split]]]; try done.
  - intros l. rewrite encode_mapM. simpl.
    rewrite (mapM_Return _ (fun v => match v with VStr s => [str_dual s] | _ => [] end))
      by (by intros v (s & -> & _)%list_elem_of_fmap).
    simpl. by rewrite <- !list_fmap_compose.
  - intros l. rewrite encode_mapM. simpl.
    rewrite (mapM_Return _ (fun v => match v with VNum x => [num_dual x] | _ => [] end))
      by (by intros v (x & -> & _)%list_elem_of_fmap).
    simpl. by rewrite <- !list_fmap_compose.
Qed.

(** X14. With a declared return type other than STRING and NUMERIC, DUAL
    included, [evaluate] never returns a row: the result of the script is
    logged, and then the encoding raises [UnboundLocalError] unless the
    result is an empty sequence, which gives a batch without rows. *)
Theorem evaluate_without_wrapping (eval : string → list value → Outcome value)
    (header : SSE.ScriptRequestHeader) (params : list value) (w : World) (result : value) :
  SSE.returnType header ≠ SSE.STRING → SSE.returnType header ≠ SSE.NUMERIC →
  eval (SSE.script header) params = Return result →
  (get_return_type header = ReturnType.Dual ∨ get_return_type header = ReturnType.Undefined)
  ∧ evaluate eval (SSE.script header) (get_return_type header) params w
    = (match normalize result with
       | [] => Return (SSE.mkBundledRows [])
       | _ :: _ => Raise UnboundLocalError
       end, logged (LogDebugResult result) w).
Proof.
  intros Hs Hn Heval.
  assert (get_return_type header = ReturnType.Dual
          ∨ get_return_type header = ReturnType.Undefined) as Hrt.
  { unfold get_return_type. rewrite !decide_False by done. case_decide; auto. }
  split; [done|]. rewrite evaluate_run, Heval. f_equal.
  rewrite encode_mapM.
  assert (∀ row, get_duals row (get_return_type header) = Raise UnboundLocalError) as Hraise.
  { intros row. by destruct Hrt as [-> | ->]. }
  destruct result as [s|x| |[|r l]|[|r l]]; simpl; by rewrite ?Hraise.
Qed.

(** An instance: the declared return type DUAL and a script that returns a
    string. *)
Lemma evaluate_without_wrapping_witness :
  evaluate (fun _ _ => Return (VStr "ok")) "1" ReturnType.Dual [] fresh
  = (Raise UnboundLocalError, logged (LogDebugResult (VStr "ok")) fresh).
Proof.
  refine (proj2 (evaluate_without_wrapping (fun _ _ => Return (VStr "ok"))
                   (SSE.mkHeader "1" SSE.SCALAR SSE.DUAL []) [] fresh (VStr "ok") _ _ eq_refl)).
  - discriminate.
  - discriminate.
Defined.

(** ** The second stage *)

Lemma split_dual_insert all_rows i all_rows' :
  split_dual all_rows i = Return all_rows' →
  ∃ column', (i < length all_rows)%nat ∧ all_rows' = <[i := column']> all_rows.
Proof.
  unfold split_dual. destruct (all_rows !! i) as [column|] eqn:Hi; [|done].
  destruct (iter column) as [pairs|]; simpl; [|done].
  destruct (mapM iter pairs) as [pairs'|]; simpl; [|done].
  intros [= <-]. eexists. split; [by eapply lookup_lt_Some | done].
Qed.

Lemma split_duals_frame param_datatypes all_rows all_rows' :
  split_duals param_datatypes all_rows = Return all_rows' →
  length all_rows' = length all_rows
  ∧ ∀ j, (j, SSE.DUAL) ∉ param_datatypes → all_rows' !! j = all_rows !! j.
Proof.
  revert all_rows. induction param_datatypes as [|[i datatype] l IH]; intros all_rows.
  - by intros [= <-].
  - rewrite split_duals_cons. case_decide as Hd.
    + destruct (split_dual all_rows i) as [s1|] eqn:Hs1; simpl; [|done].
      intros [Hlen Hsame]%IH.
      apply split_dual_insert in Hs1 as (c & Hi & ->).
      rewrite length_insert in Hlen. split; [done|].
      intros j Hj. rewrite Hsame by (intros ?; apply Hj; by right).
      apply list_lookup_insert_ne. intros ->. apply Hj. rewrite Hd. left.
    + simpl. intros [Hlen Hsame]%IH. split; [done|].
      intros j Hj. apply Hsame. intros ?. apply Hj. by right.
Qed.

(** X15. The second stage touches the columns of the parameters declared
    dual and nothing else: when it returns, the number of columns is what
    it was and the column of every parameter of another kind is unchanged;
    under a classification other than [Mixed] it does nothing at all. *)
Theorem second_stage_frame (arg_types : ArgType.t) (header : SSE.ScriptRequestHeader)
    (all_rows all_rows' : list value) :
  second_stage arg_types header all_rows = Return all_rows' →
  length all_rows' = length all_rows
  ∧ (∀ j, declared_kinds header !! j ≠ Some SSE.DUAL → all_rows' !! j = all_rows !! j)
  ∧ (arg_types ≠ ArgType.Mixed → all_rows' = all_rows).
Proof.
  unfold second_stage. case_decide as Hmixed.
  - intros [Hlen Hsame]%split_duals_frame. split; [done|]. split; [|done].
    intros j Hj. apply Hsame. intros Hin. apply Hj.
    apply list_elem_of_lookup in Hin as [i Hi]. rewrite list_lookup_imap in Hi.
    unfold declared_kinds.
    destruct ((SSE.dataType <$> SSE.params header) !! i) as [k|] eqn:Hk; [|done].
    injection Hi as -> ->. done.
  - by intros [= <-].
Qed.

(** An instance: the columns of a textual and of a dual parameter. *)
Lemma second_stage_frame_witness :
  ∃ all_rows',
    second_stage ArgType.Mixed (sample_header [SSE.STRING; SSE.DUAL])
      [VList [VStr "a"]; VList [VTuple [VNum 1; VStr "b"]]] = Return all_rows'
    ∧ length all_rows' = 2%nat
    ∧ all_rows' !! 0%nat = Some (VList [VStr "a"]).
Proof.
  eexists. split; [reflexivity|].
  destruct (second_stage_frame ArgType.Mixed (sample_header [SSE.STRING; SSE.DUAL])
              [VList [VStr "a"]; VList [VTuple [VNum 1; VStr "b"]]] _ eq_refl)
    as (Hlen & Hsame & _).
  split; [exact Hlen|]. apply (Hsame 0%nat). discriminate.
Defined.

(** ** The trail of an invocation *)

Lemma evaluated_log eval header params w :
  log (evaluated eval header params w).2
  = log w ++ match eval (SSE.script header) params with
             | Return result => [LogDebugResult result]
             | Raise _ => []
             end.
Proof.
  unfold evaluated. destruct (eval _ params) as [result|e]; simpl.
  - by destruct (encode result _).
  - by rewrite app_nil_r.
Qed.

(** X16. The log of an invocation: first the info record with the script,
    the two classifications and the function type, written before anything
    can fail; then, when parameters are declared and the transposition
    returns, the debug record of the argument columns; then, when the script
    returns, the debug record of its result, written before the encoding and
    so also when the encoding raises. Nothing else is logged. *)
Theorem EvaluateScript_log (eval : string → list value → Outcome value)
    (header : SSE.ScriptRequestHeader) (request : list SSE.BundledRows) (w : World) :
  log (EvaluateScript eval header request w).2
  = log w ++ info_record header ::
      match passed_arguments header request w with
      | Raise _ => []
      | Return all_rows =>
          (if bool_decide (SSE.params header ≠ []) then [LogDebugArgs all_rows] else [])
          ++ match eval (SSE.script header) all_rows with
             | Return result => [LogDebugResult result]
             | Raise _ => []
             end
      end.
Proof.
  rewrite EvaluateScript_run. cbv zeta. unfold passed_arguments.
  fold (info_record header).
  case_bool_decide as Hparams.
  - destruct (transpose_world_reason (get_arg_types header) header request
                (logged (info_record header) w))
      as [[o Ht] | (_ & _ & n & _ & Ht)]; rewrite Ht; simpl.
    + destruct o as [cols|e]; simpl; [|by rewrite <- ?app_assoc].
      rewrite evaluate_and_yield_evaluated, evaluated_log. simpl.
      by rewrite <- ?app_assoc.
    + by rewrite <- ?app_assoc.
  - rewrite evaluate_and_yield_evaluated, evaluated_log. simpl.
    by rewrite <- ?app_assoc.
Qed.

(** X17. With declared parameters, the whole request is read before the
    script is evaluated: under a classification that [get_arguments]
    supports, or when the request carries no row, every batch of the request
    has been pulled at the end of the invocation, also when the second
    stage, the script or the encoding raises; in any case no more batches
    are pulled than the request holds. *)
Theorem request_read_before_evaluation (eval : string → list value → Outcome value)
    (header : SSE.ScriptRequestHeader) (request : list SSE.BundledRows) (w : World) :
  SSE.params header ≠ [] →
  (pulled w ≤ pulled (EvaluateScript eval header request w).2 ≤ length request + pulled w)%nat
  ∧ (supported (get_arg_types header) ∨ request_rows request = [] →
     pulled (EvaluateScript eval header request w).2 = (length request + pulled w)%nat).
Proof.
  intros Hparams. rewrite EvaluateScript_run. cbv zeta. fold (info_record header).
  rewrite bool_decide_eq_true_2 by done.
  destruct (transpose_world_reason (get_arg_types header) header request
              (logged (info_record header) w))
    as [[o Ht] | (Hs & Hrows & n & Hn & Ht)]; rewrite Ht.
  - assert (pulled (match o with
                    | Return all_rows =>
                        evaluate_and_yield eval header all_rows
                          (logged (LogDebugArgs all_rows)
                             (advance (length request) (logged (info_record header) w)))
                    | Raise e =>
                        (Raise e, advance (length request) (logged (info_record header) w))
                    end).2 = (length request + pulled w)%nat) as ->; [|lia].
    destruct o as [cols|e]; [|done].
    rewrite evaluate_and_yield_evaluated.
    match goal with |- context [evaluated eval header cols ?w2] =>
      by destruct (evaluated_world eval header cols w2) as (_ & -> & _)
    end.
  - simpl. split; [lia|]. intros [?|?]; done.
Qed.

(** An instance: two textual parameters and a request of two batches. *)
Lemma request_read_before_evaluation_witness :
  pulled (EvaluateScript args_script (sample_header [SSE.STRING; SSE.STRING])
            [sample_batch; sample_batch] fresh).2 = 2%nat.
Proof.
  refine (proj2 (request_read_before_evaluation args_script
                   (sample_header [SSE.STRING; SSE.STRING])
                   [sample_batch; sample_batch] fresh _) _).
  - discriminate.
  - left. unfold supported. left. reflexivity.
Defined.

(** ** What the classification depends on *)

Lemma list_to_set_nil_iff (kinds : list Z) :
  (list_to_set kinds : gset Z) = ∅ ↔ kinds = [].
Proof.
  split; [|by intros ->].
  destruct kinds as [|k kinds]; [done|]. intros H.
  assert (k ∈ (∅ : gset Z)) by (rewrite <- H; set_solver). set_solver.
Qed.

(** X18. The classification of the arguments depends on the set of declared
    kinds only: two headers that declare the same kinds, in whatever order
    and however often, are classified alike. In particular the order of the
    parameters and the repetition of a parameter never change it. *)
Theorem classification_by_set (header header' : SSE.ScriptRequestHeader) :
  (list_to_set (declared_kinds header) : gset Z) = list_to_set (declared_kinds header') →
  get_arg_types header = get_arg_types header'.
Proof.
  intros Hset. rewrite !get_arg_types_classify. unfold classifyArguments. cbv zeta.
  rewrite <- Hset.
  destruct (decide (declared_kinds header = [])) as [Hnil|Hnil].
  - rewrite decide_True; [done|].
    apply list_to_set_nil_iff. rewrite <- Hset. by apply list_to_set_nil_iff.
  - rewrite (decide_False (P := declared_kinds header' = [])); [done|].
    intros Hnil'. apply Hnil, list_to_set_nil_iff. rewrite Hset.
    by apply list_to_set_nil_iff.
Qed.

(** An instance: a textual and a numeric parameter, and the same kinds in
    the other order with one repeated. *)
Lemma classification_by_set_witness :
  get_arg_types (sample_header [SSE.STRING; SSE.NUMERIC])
  = get_arg_types (sample_header [SSE.NUMERIC; SSE.STRING; SSE.STRING]).
Proof.
  apply (classification_by_set (sample_header [SSE.STRING; SSE.NUMERIC])
           (sample_header [SSE.NUMERIC; SSE.STRING; SSE.STRING])).
  apply (bool_decide_unpack _). vm_compute. exact I.
Defined.
